(** * Resilient DNS proxy: the phone book, the health probe and the resolver

    A shallow embedding of [resilient_dns.py] and the properties of its
    store ([PhoneBook]), its reachability probe ([check_ip_health],
    [try_connect]) and its per-query policy ([UniversalResolver.resolve]).

    Conventions of the embedding.
    - A Python [str] is a [string]; the texts handled are DNS presentation
      text (names, dotted quads, decimal numbers), so characters are ASCII.
    - A Python [dict] from [str] is a [gmap string _]; a Python [set] of
      [str] is a [gset string].  Python leaves the iteration order of a set
      unspecified: [elements] stands for it, and no statement below depends
      on the particular order.
    - Code that may raise returns a [result]; code that reads or writes the
      store, opens sockets, asks the upstream resolver, writes the file or
      prints runs in the monad [M], which threads a [world] made of the
      store's dictionary and the trace of the effects performed so far. *)

From Stdlib Require Import ZArith Ascii String DecimalString DecimalN DecimalPos.
From Stdlib Require Strings.Byte.
From stdpp Require Import gmap strings list fin_maps.

Local Open Scope string_scope.
Local Open Scope list_scope.
Local Open Scope Z_scope.

(** ** Python values and text operations *)

Module Py.

(** The exception classes that occur in the program (all are subclasses of
    [Exception]; the first three are subclasses of [OSError], and
    [JSONDecodeError] and [UnicodeDecodeError] of [ValueError]). *)
Inductive exn :=
| FileNotFoundError
| PermissionError
| IsADirectoryError
| UnicodeDecodeError
| JSONDecodeError
| ValueError
| DNSException.

#[global] Instance exn_eq_dec : EqDecision exn.
Proof. solve_decision. Defined.

Inductive result (A : Type) :=
| Ok (a : A)
| Raise (e : exn).
Arguments Ok {A} a.
Arguments Raise {A} e.

(** [bool(l)] of a list: true when it is not empty. *)
Definition truthy {A} (l : list A) : bool :=
  match l with [] => false | _ :: _ => true end.

(** [s.rstrip(ch)] for a one-character argument. *)
Fixpoint rstrip (ch : ascii) (s : string) : string :=
  match s with
  | EmptyString => EmptyString
  | String c s' =>
      match rstrip ch s' with
      | EmptyString => if Ascii.eqb c ch then EmptyString else String c EmptyString
      | r => String c r
      end
  end.

(** [s.split(ch)]: the fields between the occurrences of [ch]. *)
Fixpoint split (ch : ascii) (s : string) : list string :=
  match s with
  | EmptyString => [EmptyString]
  | String c s' =>
      if Ascii.eqb c ch then EmptyString :: split ch s'
      else match split ch s' with
           | [] => [String c EmptyString]
           | f :: fs => String c f :: fs
           end
  end.

(** [a, b = s.split(ch, 1)]: the text before and after the first [ch];
    without a [ch] the unpacking raises [ValueError]. *)
Fixpoint split1 (ch : ascii) (s : string) : result (string * string) :=
  match s with
  | EmptyString => Raise ValueError
  | String c s' =>
      if Ascii.eqb c ch then Ok (EmptyString, s')
      else match split1 ch s' with
           | Ok (a, b) => Ok (String c a, b)
           | Raise e => Raise e
           end
  end.

(** [sep.join(l)]. *)
Fixpoint join (sep : string) (l : list string) : string :=
  match l with
  | [] => EmptyString
  | [x] => x
  | x :: rest => x +:+ sep +:+ join sep rest
  end.

(** The blanks [int] skips around a number. *)
Definition is_space (c : ascii) : bool :=
  let n := Z.of_nat (nat_of_ascii c) in
  ((9 <=? n) && (n <=? 13)) || (n =? 32).

Definition digit_of (c : ascii) : option Z :=
  let n := Z.of_nat (nat_of_ascii c) in
  if (48 <=? n) && (n <=? 57) then Some (n - 48) else None.

Fixpoint lstrip_space (s : string) : string :=
  match s with
  | EmptyString => EmptyString
  | String c s' => if is_space c then lstrip_space s' else s
  end.

Fixpoint rstrip_space (s : string) : string :=
  match s with
  | EmptyString => EmptyString
  | String c s' =>
      match rstrip_space s' with
      | EmptyString => if is_space c then EmptyString else String c EmptyString
      | r => String c r
      end
  end.

(** The digits of a decimal literal: at least one digit, and single
    underscores only between two digits. [after_digit] tells whether the
    character just read was a digit. *)
Fixpoint int_digits (acc : Z) (after_digit : bool) (s : string) : option Z :=
  match s with
  | EmptyString => if after_digit then Some acc else None
  | String c s' =>
      if Ascii.eqb c "_" then
        if after_digit then int_digits acc false s' else None
      else
        match digit_of c with
        | Some d => int_digits (10 * acc + d) true s'
        | None => None
        end
  end.

(** [int(s)]: blanks around, an optional sign, a decimal literal;
    [ValueError] otherwise.  This is [int] on ASCII text of at most 4300
    digits: on other text Python may differ (it reads the decimal digits
    of other scripts, and recent interpreters refuse longer literals), and
    the statements below that depend on what [int] accepts or refuses say
    which characters and how many digits they are about. *)
Definition int (s : string) : result Z :=
  let number :=
    match rstrip_space (lstrip_space s) with
    | String "+" d => int_digits 0 false d
    | String "-" d => Z.opp <$> int_digits 0 false d
    | d => int_digits 0 false d
    end in
  match number with
  | Some n => Ok n
  | None => Raise ValueError
  end.

(** [str(n)] of a non-negative integer. *)
Definition str (n : N) : string := NilZero.string_of_uint (N.to_uint n).

(** [list(map(f, l))] for an [f] that may raise: the first exception
    raised ends the traversal. *)
Fixpoint map_result {A B} (f : A -> result B) (l : list A) : result (list B) :=
  match l with
  | [] => Ok []
  | x :: rest =>
      match f x with
      | Raise e => Raise e
      | Ok y =>
          match map_result f rest with
          | Raise e => Raise e
          | Ok ys => Ok (y :: ys)
          end
      end
  end.

End Py.
Export Py.

(** ** The world the program runs in, and the monad of its effects *)

(** The store's dictionary as Python holds it: a list of strings per key. *)
Abbreviation book := (gmap string (list string)).

(** The effects the program performs, in the order they happen. *)
Inductive event :=
| Connect (ip : string) (port : Z)    (* socket.create_connection((ip, port)) *)
| Query (domain rdtype : string)      (* self.upstream.resolve(domain, rdtype) *)
| Dump (snapshot : book)              (* open(filepath, 'w') and json.dump *)
| Print (line : string).              (* print(line, flush=True) *)

Record world := World {
  cache : book;          (* self.phone_book.cache *)
  trace : list event;
}.

Definition M (A : Type) : Type := world -> result A * world.

Definition ret {A} (a : A) : M A := fun w => (Ok a, w).

Definition bind {A B} (m : M A) (k : A -> M B) : M B :=
  fun w =>
    match m w with
    | (Ok a, w') => k a w'
    | (Raise e, w') => (Raise e, w')
    end.

Notation "x <- m ;; k" := (bind m (fun x => k))
  (at level 100, m at next level, right associativity).
Notation "m ;;; k" := (bind m (fun _ => k))
  (at level 100, right associativity).

(** A pure computation that may raise. *)
Definition lift {A} (r : result A) : M A := fun w => (r, w).

Definition emit (e : event) : M unit :=
  fun w => (Ok tt, {| cache := cache w; trace := trace w ++ [e] |}).

(** [try: body except Exception: handler]; what [body] did to the world
    before it raised stays done. *)
Definition try_except {A} (body : M A) (handler : M A) : M A :=
  fun w =>
    match body w with
    | (Ok a, w') => (Ok a, w')
    | (Raise _, w') => handler w'
    end.

(** [for x in l: if f(x): acc.append(x)], starting from the empty list. *)
Fixpoint filter_M {A} (f : A -> M bool) (l : list A) : M (list A) :=
  match l with
  | [] => ret []
  | x :: rest =>
      b <- f x ;;
      kept <- filter_M f rest ;;
      ret (if b then x :: kept else kept)
  end.

(** [for x in l: acc = f(acc, x)]. *)
Fixpoint fold_M {A B} (f : B -> A -> M B) (acc : B) (l : list A) : M B :=
  match l with
  | [] => ret acc
  | x :: rest => acc' <- f acc x ;; fold_M f acc' rest
  end.

(** ** class PhoneBook *)

Module PhoneBook.

(** What [open(self.filepath, 'r')] and [json.load(f)] meet on disk. *)
Inductive file_state :=
| Absent                 (* no file at the path *)
| Unreadable             (* a file the process may not read *)
| Directory              (* the path names a directory *)
| Undecodable            (* bytes that are not text in the file's encoding *)
| Malformed              (* text that is not a JSON document *)
| Snapshot (b : book).   (* the JSON object of string arrays [b] *)

(** The body of the [try] in [_load]: [open] raises on a file it cannot
    open, [json.load] on content it cannot read or parse. *)
Definition open_and_json_load (f : file_state) : result book :=
  match f with
  | Absent => Raise FileNotFoundError
  | Unreadable => Raise PermissionError
  | Directory => Raise IsADirectoryError
  | Undecodable => Raise UnicodeDecodeError
  | Malformed => Raise JSONDecodeError
  | Snapshot b => Ok b
  end.

(** [except (FileNotFoundError, json.JSONDecodeError)]. *)
Definition load_catches (e : exn) : bool :=
  bool_decide (e = FileNotFoundError) || bool_decide (e = JSONDecodeError).

Definition _load (f : file_state) : result book :=
  match open_and_json_load f with
  | Ok b => Ok b
  | Raise e => if load_catches e then Ok ∅ else Raise e
  end.

(** [__init__]: the world after [self.cache = self._load()]. *)
Definition init (f : file_state) : result world :=
  match _load f with
  | Ok b => Ok {| cache := b; trace := [] |}
  | Raise e => Raise e
  end.

Definition get (key : string) : M (list string) :=
  fun w => (Ok (default [] (cache w !! key)), w).

Definition update (key : string) (new_data : list string) : M unit :=
  fun w =>
    let existing : gset string := list_to_set (default [] (cache w !! key)) in
    let incoming : gset string := list_to_set new_data in
    let freshly_added := incoming ∖ existing in
    if decide (freshly_added = ∅) then (Ok tt, w)
    else
      let combined := elements (existing ∪ incoming) in
      let cache' := <[key := combined]> (cache w) in
      let formatted := join ", " (elements freshly_added) in
      (Ok tt,
       {| cache := cache';
          trace := trace w ++
                   [Dump cache';
                    Print (key +:+ " -> " +:+ formatted +:+ " - registered")] |}).

End PhoneBook.

(** ** class UniversalResolver *)

Module UniversalResolver.

(** *** The request and reply records of dnslib, as far as [resolve]
    reads and writes them *)

Definition QTYPE_A : Z := 1.
Definition QTYPE_MX : Z := 15.
Definition QTYPE_AAAA : Z := 28.
Definition NOERROR : Z := 0.
Definition SERVFAIL : Z := 2.

(** Record data: [A] holds the integer fields of a dotted quad, [MX] an
    exchange host and a preference. *)
Inductive RD :=
| RD_A (data : list Z)
| RD_MX (label : string) (preference : Z).

Record RR := mkRR {
  rname : string;
  rtype : Z;
  rdata : RD;
  ttl : Z;
}.

(** A DNS message: [header.rcode], the question [q.qname], [q.qtype], and
    the answer section [rr]. *)
Record DNSRecord := mkDNSRecord {
  rcode : Z;
  qname : string;   (* str(request.q.qname) *)
  qtype : Z;
  rr : list RR;
}.

(** [request.reply()]: the header flags (the response code among them) and
    the question of the request, and no answer. *)
Definition reply_to (request : DNSRecord) : DNSRecord :=
  {| rcode := rcode request; qname := qname request;
     qtype := qtype request; rr := [] |}.

(** [reply.header.rcode = c]. *)
Definition set_rcode (c : Z) (reply : DNSRecord) : DNSRecord :=
  {| rcode := c; qname := qname reply; qtype := qtype reply; rr := rr reply |}.

(** [reply.add_answer(r)]. *)
Definition add_answer (reply : DNSRecord) (r : RR) : DNSRecord :=
  {| rcode := rcode reply; qname := qname reply; qtype := qtype reply;
     rr := rr reply ++ [r] |}.

(** [A(ip)] of dnslib for a text argument:
    [tuple(map(int, ip.rstrip(".").split(".")))]. *)
Definition A (ip : string) : result RD :=
  match map_result int (split "." (rstrip "." ip)) with
  | Ok data => Ok (RD_A data)
  | Raise e => Raise e
  end.

(** An address as the upstream resolver returns it, and its [str]. *)
Record ipv4 := IPv4 {
  o1 : Init.Byte.byte; o2 : Init.Byte.byte;
  o3 : Init.Byte.byte; o4 : Init.Byte.byte;
}.

Definition str_ipv4 (a : ipv4) : string :=
  str (Strings.Byte.to_N (o1 a)) +:+ "." +:+ str (Strings.Byte.to_N (o2 a)) +:+ "." +:+
  str (Strings.Byte.to_N (o3 a)) +:+ "." +:+ str (Strings.Byte.to_N (o4 a)).

(** *** What the resolver calls outside the program *)

Record externals := {
  (* socket.create_connection((ip, port), timeout=TIMEOUT) connects
     (true) or raises OSError (false) *)
  connects : string -> Z -> bool;
  (* self.upstream.resolve(domain, 'A'): the addresses, or an exception *)
  upstream_A : string -> result (list ipv4);
  (* self.upstream.resolve(domain, 'MX'): each r.preference with
     str(r.exchange), or an exception *)
  upstream_MX : string -> result (list (N * string));
  (* dnslib accepts the text as a domain name when it builds an MX *)
  label_accepted : string -> bool;
}.

Section Resolver.

Context (ext : externals).

(** [MX(exchange, preference)] of dnslib: the exchange becomes a
    [DNSLabel], which raises on a text it cannot encode, and the
    preference is a 16-bit attribute, whose setter raises [ValueError] on
    an integer outside 0..65535. *)
Definition MX (exchange : string) (preference : Z) : result RD :=
  if label_accepted ext exchange then
    if (0 <=? preference) && (preference <=? 65535)
    then Ok (RD_MX exchange preference)
    else Raise ValueError
  else Raise ValueError.

Definition create_connection (ip : string) (port : Z) : M bool :=
  emit (Connect ip port) ;;; ret (connects ext ip port).

Definition upstream_resolve_A (domain : string) : M (list ipv4) :=
  emit (Query domain "A") ;;; lift (upstream_A ext domain).

Definition upstream_resolve_MX (domain : string) : M (list (N * string)) :=
  emit (Query domain "MX") ;;; lift (upstream_MX ext domain).

Fixpoint try_connect (ip : string) (ports : list Z) : M bool :=
  match ports with
  | [] => ret false
  | port :: rest =>
      connected <- create_connection ip port ;;
      if connected then ret true else try_connect ip rest
  end.

Definition check_ip_health (ip : string) : M bool :=
  web <- try_connect ip [443; 80] ;;
  if web then ret true else
  messaging <- try_connect ip [5222; 5223; 5190; 6667; 6697] ;;
  if messaging then ret true else
  mail <- try_connect ip [25; 465; 587; 993; 995] ;;
  if mail then ret true else
  infrastructure <- try_connect ip [22; 3389; 1883; 21; 53] ;;
  if infrastructure then ret true else
  ret false.

(** One turn of the loop over the mail entries: the body of its [try], and
    [except: pass]. *)
Definition mx_answer (qname : string) (entry : string) : result RR :=
  match split1 ":" entry with
  | Raise e => Raise e
  | Ok (pref, exchange) =>
      match int pref with
      | Raise e => Raise e
      | Ok preference =>
          match MX exchange preference with
          | Raise e => Raise e
          | Ok rd => Ok (mkRR qname QTYPE_MX rd 60)
          end
      end
  end.

Definition add_mx_entry (qname : string) (reply : DNSRecord) (entry : string)
  : M DNSRecord :=
  try_except
    (r <- lift (mx_answer qname entry) ;; ret (add_answer reply r))
    (ret reply).

Definition add_a_answer (qname : string) (reply : DNSRecord) (ip : string)
  : M DNSRecord :=
  rd <- lift (A ip) ;; ret (add_answer reply (mkRR qname QTYPE_A rd 60)).

Definition resolve (request : DNSRecord) : M DNSRecord :=
  let qname := qname request in
  let domain := rstrip "." qname in
  let qtype := qtype request in
  let reply := reply_to request in
  (* 1. block IPv6 *)
  if qtype =? QTYPE_AAAA then ret (set_rcode NOERROR reply)
  (* 2. A records *)
  else if qtype =? QTYPE_A then
    cached_ips <- PhoneBook.get domain ;;
    valid_ips <- (if truthy cached_ips
                  then filter_M check_ip_health cached_ips
                  else ret []) ;;
    valid_ips <- (if negb (truthy valid_ips) then
                    try_except
                      (answers <- upstream_resolve_A domain ;;
                       let new_ips := map str_ipv4 answers in
                       if truthy new_ips then
                         PhoneBook.update domain new_ips ;;; ret new_ips
                       else ret valid_ips)
                      (ret valid_ips)
                  else ret valid_ips) ;;
    if truthy valid_ips then fold_M (add_a_answer qname) reply valid_ips
    else ret (set_rcode SERVFAIL reply)
  (* 3. MX records *)
  else if qtype =? QTYPE_MX then
    let key := "MX:" +:+ domain in
    cached_mx <- PhoneBook.get key ;;
    cached_mx <- (if negb (truthy cached_mx) then
                    try_except
                      (answers <- upstream_resolve_MX domain ;;
                       let new_mx :=
                         map (fun r => str (fst r) +:+ ":" +:+ snd r) answers in
                       if truthy new_mx then
                         PhoneBook.update key new_mx ;;; ret new_mx
                       else ret cached_mx)
                      (ret cached_mx)
                  else ret cached_mx) ;;
    if truthy cached_mx then fold_M (add_mx_entry qname) reply cached_mx
    else ret (set_rcode NOERROR reply)
  (* 4. ignore others *)
  else ret (set_rcode NOERROR reply).

End Resolver.

End UniversalResolver.

(** * The vocabulary of the statements *)

(** ** The store *)

(** The value set of a key: the values [get] returns, as a set. *)
Definition value_set (key : string) (w : world) : gset string :=
  match PhoneBook.get key w with
  | (Ok l, _) => list_to_set l
  | (Raise _, _) => ∅
  end.

(** The world after [update(key, V1)], [update(key, V2)], ... in turn. *)
Fixpoint after_updates (key : string) (Vs : list (list string)) (w : world)
  : world :=
  match Vs with
  | [] => w
  | V :: rest => after_updates key rest (snd (PhoneBook.update key V w))
  end.

(** ** Effects *)

(** The world after some more effects. *)
Definition add_trace (w : world) (evs : list event) : world :=
  {| cache := cache w; trace := trace w ++ evs |}.

(** A scan of [ports] in order that stops at the first port that is open:
    it answers [true] having attempted the ports up to that one and none
    after it, or [false] having attempted them all in vain. *)
Definition short_circuit (is_open : Z → bool) (ports attempted : list Z)
    (answer : bool) : Prop :=
  (answer = true ∧
   ∃ earlier port later,
     ports = earlier ++ port :: later ∧ attempted = earlier ++ [port] ∧
     is_open port = true ∧ Forall (λ p, is_open p = false) earlier)
  ∨ (answer = false ∧ attempted = ports ∧
     Forall (λ p, is_open p = false) ports).

(** ** Addresses and mail entries *)

(** Whether [ch] occurs in [s]. *)
Fixpoint occurs (ch : ascii) (s : string) : bool :=
  match s with
  | EmptyString => false
  | String c s' => Ascii.eqb c ch || occurs ch s'
  end.

(** The integer fields of an address, as [A] holds them. *)
Definition fields (a : UniversalResolver.ipv4) : list Z :=
  [Z.of_N (Strings.Byte.to_N (UniversalResolver.o1 a));
   Z.of_N (Strings.Byte.to_N (UniversalResolver.o2 a));
   Z.of_N (Strings.Byte.to_N (UniversalResolver.o3 a));
   Z.of_N (Strings.Byte.to_N (UniversalResolver.o4 a))].

(** What is used of the decimal text of one octet. *)
Definition octet_text_ok (b : Init.Byte.byte) : bool :=
  let d := str (Strings.Byte.to_N b) in
  negb (occurs "." d)
  && String.eqb (rstrip "." d) d
  && negb (String.eqb d EmptyString)
  && match int d with
     | Ok n => n =? Z.of_N (Strings.Byte.to_N b)
     | Raise _ => false
     end.

(** Texts that [rstrip] leaves as they are. *)
Definition unstripped (ch : ascii) (t : string) : Prop :=
  rstrip ch t = t ∧ t ≠ EmptyString.

(** The value of a computation that did not raise. *)
Definition to_option {A} (r : result A) : option A :=
  match r with Ok a => Some a | Raise _ => None end.

(** An upstream resolution that fails: it raises, or yields nothing. *)
Definition fails {A} (r : result (list A)) : Prop :=
  match r with Raise _ => True | Ok l => l = [] end.

(** The mail entries available to an MX query for [domain]: the cached
    ones, or, when none is cached, the ones made from the upstream answer. *)
Definition mx_entries (ext : UniversalResolver.externals) (domain : string)
    (w : world) : list string :=
  match default [] (cache w !! ("MX:" +:+ domain)) with
  | [] =>
      match UniversalResolver.upstream_MX ext domain with
      | Ok answers => map (λ r, str r.1 +:+ ":" +:+ r.2) answers
      | Raise _ => []
      end
  | cached => cached
  end.

(** An effect that is a connection attempt. *)
Definition is_connect (e : event) : Prop := ∃ ip port, e = Connect ip port.

(** An effect that is a connection attempt to one of the [cached]
    addresses. *)
Definition probes_of (cached : list string) (e : event) : Prop :=
  ∃ ip port, e = Connect ip port ∧ ip ∈ cached.

(** The answer record of an address. *)
Definition a_record (qn : string) (a : UniversalResolver.ipv4)
  : UniversalResolver.RR :=
  UniversalResolver.mkRR qn UniversalResolver.QTYPE_A
    (UniversalResolver.RD_A (fields a)) 60.

(** ** Worlds and externals of the examples *)

(** A store that holds two addresses of one name, after some output. *)
Definition two_addresses : world :=
  {| cache := {["example.com" := ["192.0.2.7"; "192.0.2.1"]]};
     trace := [Print "started"] |}.

(** The upstream resolver's one address of example.com. *)
Definition upstream_address : UniversalResolver.ipv4 :=
  UniversalResolver.IPv4 Init.Byte.xcb Init.Byte.x00 Init.Byte.x71 Init.Byte.x05.

(** Externals for the examples: one host answers on port 443, the upstream
    resolver knows one address of example.com and nothing else, and every
    host name is accepted. *)
Definition example_externals : UniversalResolver.externals :=
  {| UniversalResolver.connects :=
       λ ip port, String.eqb ip "203.0.113.5" && (port =? 443);
     UniversalResolver.upstream_A :=
       λ domain,
         if String.eqb domain "example.com"
         then Ok [upstream_address]
         else Raise DNSException;
     UniversalResolver.upstream_MX := λ _, Raise DNSException;
     UniversalResolver.label_accepted := λ _, true |}.

(** A store that holds nothing. *)
Definition empty_world : world := {| cache := ∅; trace := [] |}.

(** ** Further vocabulary: the probe, the file, the mail entries *)

(** The ports of the four phases of [check_ip_health], in order. *)
Definition probe_ports : list Z :=
  [443; 80; 5222; 5223; 5190; 6667; 6697; 25; 465; 587; 993; 995;
   22; 3389; 1883; 21; 53].

(** An address on which some probed port accepts a connection. *)
Definition reachable (ext : UniversalResolver.externals) (ip : string) : bool :=
  existsb (UniversalResolver.connects ext ip) probe_ports.

(** An effect that is a question to the upstream resolver. *)
Definition is_query (e : event) : Prop := ∃ domain rdtype, e = Query domain rdtype.

(** What is known of the file after some effects, from what was known of
    it before.  [succeeds] tells which dumps are written in full: such a
    dump leaves the dictionary dumped in the file.  A dump that fails
    ([open] or [json.dump] raised, which [update] swallows) leaves the old
    text, a part of the new one or nothing: nothing is known of the file
    ([None]) until a later dump succeeds. *)
Fixpoint file_after (succeeds : book → bool) (file : option book)
    (evs : list event) : option book :=
  match evs with
  | [] => file
  | Dump b :: rest =>
      file_after succeeds (if succeeds b then Some b else None) rest
  | _ :: rest => file_after succeeds file rest
  end.

(** A dictionary whose lists hold no value twice. *)
Definition deduplicated (b : book) : Prop :=
  ∀ key l, b !! key = Some l → NoDup l.

(** The key of the store an incoming request may write to. *)
Definition store_key (request : UniversalResolver.DNSRecord) : option string :=
  let domain := rstrip "." (UniversalResolver.qname request) in
  if UniversalResolver.qtype request =? UniversalResolver.QTYPE_A
  then Some domain
  else if UniversalResolver.qtype request =? UniversalResolver.QTYPE_MX
  then Some ("MX:" +:+ domain)
  else None.

(** The text stored for an upstream mail answer, and its answer record. *)
Definition mx_text (r : N * string) : string := str r.1 +:+ ":" +:+ r.2.

Definition mx_record (qn : string) (r : N * string) : UniversalResolver.RR :=
  UniversalResolver.mkRR qn UniversalResolver.QTYPE_MX
    (UniversalResolver.RD_MX r.2 (Z.of_N r.1)) 60.

(** The answer record of an address given as record data. *)
Definition rd_record (qn : string) (rd : UniversalResolver.RD)
  : UniversalResolver.RR :=
  UniversalResolver.mkRR qn UniversalResolver.QTYPE_A rd 60.

(** The number a sequence of decimal digits denotes, after [acc]. *)
Fixpoint digits_value (acc : Z) (d : Decimal.uint) : Z :=
  match d with
  | Decimal.Nil => acc
  | Decimal.D0 l => digits_value (10 * acc + 0) l
  | Decimal.D1 l => digits_value (10 * acc + 1) l
  | Decimal.D2 l => digits_value (10 * acc + 2) l
  | Decimal.D3 l => digits_value (10 * acc + 3) l
  | Decimal.D4 l => digits_value (10 * acc + 4) l
  | Decimal.D5 l => digits_value (10 * acc + 5) l
  | Decimal.D6 l => digits_value (10 * acc + 6) l
  | Decimal.D7 l => digits_value (10 * acc + 7) l
  | Decimal.D8 l => digits_value (10 * acc + 8) l
  | Decimal.D9 l => digits_value (10 * acc + 9) l
  end.

(** A visible ASCII character that no integer literal holds: neither a
    digit, nor a sign, nor an underscore. *)
Definition non_numeric (c : ascii) : bool :=
  let n := Z.of_nat (nat_of_ascii c) in
  (33 <=? n) && (n <=? 126)
  && negb ((48 <=? n) && (n <=? 57))
  && negb (Ascii.eqb c "+") && negb (Ascii.eqb c "-")
  && negb (Ascii.eqb c "_").

(** Texts made of decimal digits only. *)
Fixpoint all_digits (s : string) : bool :=
  match s with
  | EmptyString => true
  | String c s' => bool_decide (is_Some (digit_of c)) && all_digits s'
  end.

(** A store with a mail entry cached, a request of a type the resolver
    ignores (TXT), and externals whose upstream knows two mail hosts. *)
Definition mail_cached : world :=
  {| cache := {["MX:example.com" := ["10:mail.example.com"]]}; trace := [] |}.

(** A second address, and a store that holds the reachable address of
    the examples before it. *)
Definition second_address : UniversalResolver.ipv4 :=
  UniversalResolver.IPv4 Init.Byte.xc0 Init.Byte.x00 Init.Byte.x02 Init.Byte.x01.

Definition live_cache : world :=
  {| cache := {["example.com" := ["203.0.113.5"; "192.0.2.1"]]}; trace := [] |}.

(** The replies and the world of the examples of failure. *)
Definition servfail_reply : UniversalResolver.DNSRecord :=
  UniversalResolver.mkDNSRecord UniversalResolver.SERVFAIL "nowhere.example."
    UniversalResolver.QTYPE_A [].

Definition asked_nowhere : world :=
  {| cache := ∅; trace := [Query "nowhere.example" "A"] |}.

Definition txt_request : UniversalResolver.DNSRecord :=
  UniversalResolver.mkDNSRecord 0 "example.com." 16 [].

Definition mail_externals : UniversalResolver.externals :=
  {| UniversalResolver.connects := λ _ _, false;
     UniversalResolver.upstream_A := λ _, Raise DNSException;
     UniversalResolver.upstream_MX :=
       λ _, Ok [(10%N, "mx1.example.com."); (20%N, "mx2.example.com.")];
     UniversalResolver.label_accepted := λ _, true |}.

(** * Properties *)

(** ** The definitions on examples *)

Example rstrip_ex : rstrip "." "example.com.." = "example.com".
Proof. reflexivity. Qed.
Example split_ex : split "." "10.0.0.1" = ["10"; "0"; "0"; "1"].
Proof. reflexivity. Qed.
Example split1_ex : split1 ":" "10:mail:x" = Ok ("10", "mail:x").
Proof. reflexivity. Qed.
Example int_ex : int " -1_0 " = Ok (-10).
Proof. reflexivity. Qed.
Example int_ex2 : int "1__0" = Raise ValueError.
Proof. reflexivity. Qed.
Example str_ex : str 255 = "255".
Proof. reflexivity. Qed.
Example join_ex : join ", " ["a"; "b"; "c"] = "a, b, c".
Proof. reflexivity. Qed.

Example update_ex :
  snd (PhoneBook.update "a" ["1.1.1.1"; "2.2.2.2"]
         {| cache := {["a" := ["1.1.1.1"]]}; trace := [] |})
  = {| cache := {["a" := elements ({["1.1.1.1"; "2.2.2.2"]} : gset string)]};
       trace := [Dump {["a" := elements ({["1.1.1.1"; "2.2.2.2"]} : gset string)]};
                 Print "a -> 2.2.2.2 - registered"] |}.
Proof. vm_compute. reflexivity. Qed.

(** ** The store *)

Section PhoneBookProperties.

Implicit Types (key : string) (w : world) (V : list string).

Lemma get_returns key w :
  PhoneBook.get key w = (Ok (default [] (cache w !! key)), w).
Proof. reflexivity. Qed.

Lemma value_set_lookup key w :
  value_set key w = list_to_set (default [] (cache w !! key)).
Proof. reflexivity. Qed.

Lemma update_returns key V w : fst (PhoneBook.update key V w) = Ok tt.
Proof. unfold PhoneBook.update. by case_decide. Qed.

(** The two outcomes of [update]: nothing new and nothing done, or the
    key rebound to the union, one dump and one line printed. *)
Lemma update_cases key V w :
  (list_to_set V ⊆ value_set key w ∧ PhoneBook.update key V w = (Ok tt, w))
  ∨ (list_to_set V ⊈ value_set key w ∧
     ∃ line,
       snd (PhoneBook.update key V w) =
       {| cache := <[key := elements (value_set key w ∪ list_to_set V)]> (cache w);
          trace := trace w ++
                   [Dump (<[key := elements (value_set key w ∪ list_to_set V)]> (cache w));
                    Print line] |}).
Proof.
  rewrite value_set_lookup. unfold PhoneBook.update.
  case_decide as Hfresh.
  - left. split; [set_solver | done].
  - right. split; [set_solver | eauto].
Qed.

Lemma update_value_set key V w :
  value_set key (snd (PhoneBook.update key V w))
  = value_set key w ∪ list_to_set V.
Proof.
  destruct (update_cases key V w) as [[Hsub ->] | [_ [line ->]]].
  - simpl. set_solver.
  - rewrite (value_set_lookup key (World _ _)). simpl.
    rewrite lookup_insert_eq. simpl. by rewrite list_to_set_elements_L.
Qed.

Lemma update_other_key key key' V w :
  key ≠ key' →
  cache (snd (PhoneBook.update key V w)) !! key' = cache w !! key'.
Proof.
  intros Hne.
  destruct (update_cases key V w) as [[_ ->] | [_ [line ->]]]; [done |].
  simpl. by rewrite lookup_insert_ne.
Qed.

Lemma update_grows key key' V w :
  value_set key' w ⊆ value_set key' (snd (PhoneBook.update key V w)).
Proof.
  destruct (decide (key = key')) as [<- | Hne].
  - rewrite update_value_set. set_solver.
  - rewrite !value_set_lookup. by rewrite update_other_key.
Qed.

(** C1. Store merge monotonicity: after update(k, V1), update(k, V2), ...
    the value set that get(k) returns is the union of the initial set of k
    and of all the Vi; every update returns, and no update removes a value
    from the set of any key. *)
Theorem update_merge_monotone :
  (∀ key Vs w,
     value_set key (after_updates key Vs w)
     = value_set key w ∪ ⋃ (list_to_set <$> Vs))
  ∧ (∀ key V w, fst (PhoneBook.update key V w) = Ok tt)
  ∧ (∀ key key' V w x,
       x ∈ value_set key' w →
       x ∈ value_set key' (snd (PhoneBook.update key V w))).
Proof.
  split; [| split].
  - intros key Vs. induction Vs as [| V Vs IH]; intros w; simpl.
    + set_solver.
    + rewrite IH, update_value_set. set_solver.
  - apply update_returns.
  - intros key key' V w x Hx. by apply update_grows.
Qed.

(** C2. No-op merge: when every value of V is already stored under k,
    update(k, V) leaves the world as it was: no dump of the file, no line
    printed, and get(k) returns what it returned before. *)
Theorem update_noop key V w :
  list_to_set V ⊆ value_set key w →
  PhoneBook.update key V w = (Ok tt, w)
  ∧ trace (snd (PhoneBook.update key V w)) = trace w
  ∧ fst (PhoneBook.get key (snd (PhoneBook.update key V w)))
    = fst (PhoneBook.get key w).
Proof.
  intros Hsub.
  destruct (update_cases key V w) as [[_ Heq] | [Hnsub _]]; [| done].
  by rewrite Heq.
Qed.

Lemma update_noop_witness :
  list_to_set ["192.0.2.1"; "192.0.2.1"] ⊆ value_set "example.com" two_addresses
  ∧ PhoneBook.update "example.com" ["192.0.2.1"; "192.0.2.1"] two_addresses
    = (Ok tt, two_addresses).
Proof.
  assert (Hsub : list_to_set ["192.0.2.1"; "192.0.2.1"]
                 ⊆ value_set "example.com" two_addresses).
  { apply (bool_decide_unpack _). vm_compute. exact I. }
  split; [exact Hsub |].
  exact (proj1 (update_noop "example.com" ["192.0.2.1"; "192.0.2.1"]
                  two_addresses Hsub)).
Defined.

(** C10. Frame of update: update(k, V) leaves what get(k') returns
    unchanged for every other key k'. *)
Theorem update_frame key key' V w :
  key ≠ key' →
  fst (PhoneBook.get key' (snd (PhoneBook.update key V w)))
  = fst (PhoneBook.get key' w).
Proof.
  intros Hne. rewrite !get_returns. simpl. by rewrite update_other_key.
Qed.

Lemma update_frame_witness :
  "a.example" ≠ "example.com"
  ∧ fst (PhoneBook.get "example.com"
           (snd (PhoneBook.update "a.example" ["192.0.2.1"] two_addresses)))
    = fst (PhoneBook.get "example.com" two_addresses).
Proof.
  assert (Hne : "a.example" ≠ "example.com") by discriminate.
  split; [exact Hne |].
  exact (update_frame "a.example" "example.com" ["192.0.2.1"] two_addresses Hne).
Defined.

End PhoneBookProperties.

(** ** Loading the store *)

Section LoadProperties.

Import PhoneBook.

(** What [_load] lets through: an error of the [try] body that is neither
    of the two classes of its [except] clause. *)
Lemma load_propagates (f : file_state) (e : exn) :
  open_and_json_load f = Raise e →
  e ≠ FileNotFoundError → e ≠ JSONDecodeError →
  _load f = Raise e.
Proof.
  intros Hbody Hfnf Hjson. unfold _load, load_catches. rewrite Hbody.
  by rewrite !bool_decide_eq_false_2.
Qed.




End LoadProperties.

(** ** The reachability probe *)

Section ProbeProperties.

Import UniversalResolver.
Context (ext : externals).

Lemma add_trace_nil w : add_trace w [] = w.
Proof. destruct w. unfold add_trace. simpl. by rewrite app_nil_r. Qed.

Lemma add_trace_app w evs evs' :
  add_trace (add_trace w evs) evs' = add_trace w (evs ++ evs').
Proof. unfold add_trace. simpl. by rewrite app_assoc. Qed.

Lemma create_connection_run ip port w :
  create_connection ext ip port w
  = (Ok (connects ext ip port), add_trace w [Connect ip port]).
Proof. reflexivity. Qed.

Lemma try_connect_cons ip port rest w :
  try_connect ext ip (port :: rest) w
  = if connects ext ip port then (Ok true, add_trace w [Connect ip port])
    else try_connect ext ip rest (add_trace w [Connect ip port]).
Proof.
  simpl. unfold bind. rewrite create_connection_run.
  by destruct (connects ext ip port).
Qed.

Lemma try_connect_probe ip ports w :
  ∃ answer attempted,
    try_connect ext ip ports w
    = (Ok answer, add_trace w (Connect ip <$> attempted))
    ∧ short_circuit (connects ext ip) ports attempted answer.
Proof.
  revert w. induction ports as [| port rest IH]; intros w.
  - exists false, []. split.
    + simpl. unfold ret. by rewrite add_trace_nil.
    + right. by repeat split.
  - rewrite try_connect_cons. destruct (connects ext ip port) eqn:Hport.
    + exists true, [port]. split; [done |].
      left. split; [done |]. exists [], port, rest. by repeat split.
    + destruct (IH (add_trace w [Connect ip port]))
        as (answer & attempted & Hrun & Hscan).
      exists answer, (port :: attempted). split.
      * rewrite Hrun. by rewrite add_trace_app.
      * destruct Hscan as [[-> (earlier & p & later & -> & -> & Hp & Hearlier)]
                          | [-> [-> Hall]]].
        -- left. split; [done |].
           exists (port :: earlier), p, later. repeat split; try done.
           by constructor.
        -- right. repeat split; try done. by constructor.
Qed.

(** Scanning two lists one after the other, the second only when the first
    gave nothing, is scanning their concatenation. *)
Lemma try_connect_app ip ports ports' w :
  try_connect ext ip (ports ++ ports') w
  = (found <- try_connect ext ip ports ;;
     if found then ret true else try_connect ext ip ports') w.
Proof.
  revert w. induction ports as [| port rest IH]; intros w.
  - reflexivity.
  - change ((port :: rest) ++ ports') with (port :: (rest ++ ports')).
    unfold bind in *. rewrite !try_connect_cons.
    destruct (connects ext ip port); [reflexivity | apply IH].
Qed.

Lemma try_connect_bool ip ports w :
  (found <- try_connect ext ip ports ;;
   if found then ret true else ret false) w
  = try_connect ext ip ports w.
Proof.
  unfold bind.
  destruct (try_connect_probe ip ports w) as (answer & attempted & -> & _).
  by destruct answer.
Qed.

(** The four phases of [check_ip_health] are one scan of their ports. *)
Lemma check_ip_health_scan ip w :
  check_ip_health ext ip w
  = try_connect ext ip
      [443; 80; 5222; 5223; 5190; 6667; 6697; 25; 465; 587; 993; 995;
       22; 3389; 1883; 21; 53] w.
Proof.
  change [443; 80; 5222; 5223; 5190; 6667; 6697; 25; 465; 587; 993; 995;
          22; 3389; 1883; 21; 53]
    with ([443; 80] ++ [5222; 5223; 5190; 6667; 6697]
          ++ [25; 465; 587; 993; 995] ++ [22; 3389; 1883; 21; 53]).
  unfold check_ip_health.
  rewrite try_connect_app. unfold bind at 1 5.
  destruct (try_connect ext ip [443; 80] w) as [[[] | e] w1]; try reflexivity.
  rewrite try_connect_app. unfold bind at 1 4.
  destruct (try_connect ext ip [5222; 5223; 5190; 6667; 6697] w1)
    as [[[] | e] w2]; try reflexivity.
  rewrite try_connect_app. unfold bind at 1 3.
  destruct (try_connect ext ip [25; 465; 587; 993; 995] w2)
    as [[[] | e] w3]; try reflexivity.
  apply try_connect_bool.
Qed.

Lemma check_ip_health_probe ip w :
  ∃ answer attempted,
    check_ip_health ext ip w
    = (Ok answer, add_trace w (Connect ip <$> attempted))
    ∧ short_circuit (connects ext ip)
        [443; 80; 5222; 5223; 5190; 6667; 6697; 25; 465; 587; 993; 995;
         22; 3389; 1883; 21; 53]
        attempted answer.
Proof. rewrite check_ip_health_scan. apply try_connect_probe. Qed.

(** C6. Probe order and short circuit: the reachability check attempts
    TCP connections in the order 443, 80, 5222, 5223, 5190, 6667, 6697,
    25, 465, 587, 993, 995, 22, 3389, 1883, 21, 53; it returns true at the
    first connection that succeeds, having attempted no later port, and
    returns false only when every listed port has failed. *)
Theorem check_ip_health_short_circuit ip w :
  ∃ answer attempted,
    check_ip_health ext ip w
    = (Ok answer, add_trace w (Connect ip <$> attempted))
    ∧ short_circuit (connects ext ip)
        [443; 80; 5222; 5223; 5190; 6667; 6697; 25; 465; 587; 993; 995;
         22; 3389; 1883; 21; 53]
        attempted answer.
Proof. apply check_ip_health_probe. Qed.

End ProbeProperties.

(** ** Addresses as text *)

Section AddressText.

Import UniversalResolver.

Lemma split_no_sep ch s : occurs ch s = false → split ch s = [s].
Proof.
  induction s as [| c s IH]; simpl; [done |].
  intros [Hc Hs]%orb_false_elim. rewrite Hc, (IH Hs). done.
Qed.

Lemma split_field ch s rest :
  occurs ch s = false →
  split ch (s +:+ String ch rest) = s :: split ch rest.
Proof.
  induction s as [| c s IH]; simpl.
  - intros _. by rewrite Ascii.eqb_refl.
  - intros [Hc Hs]%orb_false_elim. rewrite Hc, (IH Hs). done.
Qed.

Lemma unstripped_app ch s t : unstripped ch t → unstripped ch (s +:+ t).
Proof.
  intros [Ht Hne]. induction s as [| c s [IHs IHne]]; [done |].
  split; [| done].
  change (rstrip ch (String c (s +:+ t)) = String c (s +:+ t)).
  simpl. rewrite IHs. destruct (s +:+ t); [done | reflexivity].
Qed.

Lemma octet_text b : octet_text_ok b = true.
Proof. destruct b; vm_compute; reflexivity. Qed.

Lemma octet_text_facts b :
  occurs "." (str (Strings.Byte.to_N b)) = false
  ∧ unstripped "." (str (Strings.Byte.to_N b))
  ∧ int (str (Strings.Byte.to_N b)) = Ok (Z.of_N (Strings.Byte.to_N b)).
Proof.
  pose proof (octet_text b) as H. unfold octet_text_ok in H.
  apply andb_prop in H as [H Hint]. apply andb_prop in H as [H Hne].
  apply andb_prop in H as [Hdot Hstrip].
  apply negb_true_iff in Hdot, Hne.
  apply String.eqb_eq in Hstrip. apply String.eqb_neq in Hne.
  repeat split; try done.
  destruct (int _) as [n | e]; [| done].
  apply Z.eqb_eq in Hint. by subst.
Qed.

(** dnslib's [A] reads back the fields of an address from its text. *)
Lemma A_str_ipv4 a : A (str_ipv4 a) = Ok (RD_A (fields a)).
Proof.
  destruct a as [b1 b2 b3 b4]. unfold A, str_ipv4, fields. simpl o1; simpl o2;
    simpl o3; simpl o4.
  destruct (octet_text_facts b1) as (Hd1 & _ & Hi1).
  destruct (octet_text_facts b2) as (Hd2 & _ & Hi2).
  destruct (octet_text_facts b3) as (Hd3 & _ & Hi3).
  destruct (octet_text_facts b4) as (Hd4 & Hu4 & Hi4).
  set (d1 := str (Strings.Byte.to_N b1)) in *.
  set (d2 := str (Strings.Byte.to_N b2)) in *.
  set (d3 := str (Strings.Byte.to_N b3)) in *.
  set (d4 := str (Strings.Byte.to_N b4)) in *.
  change (d1 +:+ "." +:+ d2 +:+ "." +:+ d3 +:+ "." +:+ d4)
    with (d1 +:+ String "." (d2 +:+ String "." (d3 +:+ String "." d4))).
  assert (Hu : unstripped "."
                 (d1 +:+ String "." (d2 +:+ String "." (d3 +:+ String "." d4)))).
  { apply unstripped_app, (unstripped_app _ "."),
      unstripped_app, (unstripped_app _ "."),
      unstripped_app, (unstripped_app _ "."), Hu4. }
  destruct Hu as [-> _].
  rewrite !split_field by done. rewrite split_no_sep by done.
  simpl. by rewrite Hi1, Hi2, Hi3, Hi4.
Qed.

End AddressText.

(** ** Decimal text *)

Section DecimalText.

Lemma int_digits_text d acc after :
  int_digits acc after (NilEmpty.string_of_uint d)
  = match d with
    | Decimal.Nil => if after then Some acc else None
    | _ => Some (digits_value acc d)
    end.
Proof.
  revert acc after. induction d; intros acc after; try reflexivity;
    cbn [NilEmpty.string_of_uint int_digits digits_value];
    (change (Ascii.eqb _ "_") with false; cbv iota);
    (lazymatch goal with
     | |- context [digit_of ?c] =>
         let v := eval vm_compute in (digit_of c) in
         change (digit_of c) with v
     end);
    cbv iota; rewrite IHd; destruct d; reflexivity.
Qed.

Lemma of_uint_acc_value d acc :
  Z.pos (Pos.of_uint_acc d acc) = digits_value (Z.pos acc) d.
Proof.
  revert acc. induction d; intros acc; cbn [Pos.of_uint_acc digits_value];
    try reflexivity; rewrite IHd; f_equal; lia.
Qed.

Lemma of_uint_value d : Z.of_N (Pos.of_uint d) = digits_value 0 d.
Proof.
  induction d; cbn [Pos.of_uint digits_value]; try reflexivity; try exact IHd;
    cbn [Z.of_N]; rewrite of_uint_acc_value; reflexivity.
Qed.

Lemma all_digits_text d : all_digits (NilEmpty.string_of_uint d) = true.
Proof.
  induction d; try reflexivity;
    cbn [NilEmpty.string_of_uint all_digits]; rewrite IHd; reflexivity.
Qed.

(** A digit is no blank, no sign and no colon. *)
Lemma digit_char c :
  is_Some (digit_of c) →
  is_space c = false ∧ c ≠ "+"%char ∧ c ≠ "-"%char
  ∧ Ascii.eqb c ":" = false.
Proof.
  destruct c as [[] [] [] [] [] [] [] []]; intros [d Hd];
    try discriminate Hd; repeat split; try reflexivity; discriminate.
Qed.

Lemma all_digits_unspaced s :
  all_digits s = true → lstrip_space s = s ∧ rstrip_space s = s.
Proof.
  induction s as [| c s IH]; [done |]. cbn [all_digits].
  intros [Hc Hs]%andb_prop. apply bool_decide_eq_true_1 in Hc.
  destruct (digit_char c Hc) as (Hspace & _).
  destruct (IH Hs) as [_ IHr]. split.
  - cbn [lstrip_space]. by rewrite Hspace.
  - cbn [rstrip_space]. rewrite IHr, Hspace. by destruct s.
Qed.

Lemma all_digits_no_colon s : all_digits s = true → occurs ":" s = false.
Proof.
  induction s as [| c s IH]; [done |]. cbn [all_digits occurs].
  intros [Hc Hs]%andb_prop. apply bool_decide_eq_true_1 in Hc.
  destruct (digit_char c Hc) as (_ & _ & _ & ->). by apply IH.
Qed.

Lemma str_text n :
  str n = NilEmpty.string_of_uint (N.to_uint n) ∧ N.to_uint n ≠ Decimal.Nil.
Proof.
  assert (Hnil : N.to_uint n ≠ Decimal.Nil).
  { destruct n as [| p]; [discriminate |].
    apply DecimalPos.Unsigned.to_uint_nonnil. }
  split; [| exact Hnil]. unfold str, NilZero.string_of_uint.
  by destruct (N.to_uint n).
Qed.

(** [int] reads back what [str] writes. *)
Lemma int_str n : int (str n) = Ok (Z.of_N n).
Proof.
  destruct (str_text n) as [Htext Hnil].
  pose proof (all_digits_text (N.to_uint n)) as Hdigits.
  rewrite <- Htext in Hdigits.
  destruct (all_digits_unspaced _ Hdigits) as [Hl Hr].
  assert (Hvalue : int_digits 0 false (str n) = Some (Z.of_N n)).
  { rewrite Htext, int_digits_text.
    rewrite <- (DecimalN.Unsigned.of_to n) at 2.
    unfold N.of_uint. rewrite of_uint_value. by destruct (N.to_uint n). }
  unfold int. rewrite Hl, Hr.
  destruct (str n) as [| c s] eqn:Hs; [by rewrite Hvalue |].
  cbn [all_digits] in Hdigits. apply andb_prop in Hdigits as [Hc _].
  apply bool_decide_eq_true_1 in Hc.
  destruct (digit_char c Hc) as (_ & Hplus & Hminus & _).
  destruct c as [[] [] [] [] [] [] [] []];
    try (by destruct Hplus); try (by destruct Hminus);
    cbv beta iota; by rewrite Hvalue.
Qed.

Lemma str_no_colon n : occurs ":" (str n) = false.
Proof.
  destruct (str_text n) as [-> _].
  apply all_digits_no_colon, all_digits_text.
Qed.

Lemma split1_field ch s rest :
  occurs ch s = false →
  split1 ch (s +:+ String ch rest) = Ok (s, rest).
Proof.
  induction s as [| c s IH]; simpl.
  - intros _. by rewrite Ascii.eqb_refl.
  - intros [Hc Hs]%orb_false_elim. by rewrite Hc, (IH Hs).
Qed.

Lemma split1_no_sep ch s :
  occurs ch s = false → split1 ch s = Raise ValueError.
Proof.
  induction s as [| c s IH]; simpl; [done |].
  intros [Hc Hs]%orb_false_elim. by rewrite Hc, (IH Hs).
Qed.

Lemma non_numeric_char c :
  non_numeric c = true →
  is_space c = false ∧ digit_of c = None ∧ Ascii.eqb c "_" = false
  ∧ c ≠ "+"%char ∧ c ≠ "-"%char.
Proof.
  destruct c as [[] [] [] [] [] [] [] []]; intros Hc;
    try discriminate Hc; repeat split; try reflexivity; discriminate.
Qed.

(** A literal that holds such a character is no integer. *)
Lemma int_digits_non_numeric c s acc after :
  non_numeric c = true → occurs c s = true → int_digits acc after s = None.
Proof.
  intros Hc. destruct (non_numeric_char c Hc) as (_ & Hdigit & Hunder & _).
  revert acc after. induction s as [| a s IH]; intros acc after; [done |].
  cbn [occurs int_digits]. intros [Ha | Hs]%orb_prop.
  - apply Ascii.eqb_eq in Ha as ->. by rewrite Hunder, Hdigit.
  - destruct (Ascii.eqb a "_").
    + destruct after; [by apply IH | done].
    + destruct (digit_of a); [by apply IH | done].
Qed.

Lemma occurs_lstrip_space c s :
  is_space c = false → occurs c s = true →
  occurs c (lstrip_space s) = true.
Proof.
  intros Hc. induction s as [| a s IH]; [done |].
  cbn [lstrip_space]. destruct (is_space a) eqn:Ha; [| done].
  cbn [occurs]. intros [Hac | Hs]%orb_prop; [| by apply IH].
  apply Ascii.eqb_eq in Hac as ->. congruence.
Qed.

Lemma occurs_rstrip_space c s :
  is_space c = false → occurs c s = true →
  occurs c (rstrip_space s) = true.
Proof.
  intros Hc. induction s as [| a s IH]; [done |].
  cbn [rstrip_space occurs]. intros [Hac | Hs]%orb_prop.
  - destruct (rstrip_space s).
    + apply Ascii.eqb_eq in Hac as ->. rewrite Hc. cbn [occurs].
      by rewrite Ascii.eqb_refl.
    + cbn [occurs]. by rewrite Hac.
  - specialize (IH Hs). destruct (rstrip_space s); [done |].
    cbn [occurs] in *. rewrite IH. by destruct (Ascii.eqb a c).
Qed.

Lemma int_non_numeric c s :
  non_numeric c = true → occurs c s = true → int s = Raise ValueError.
Proof.
  intros Hc Hs. destruct (non_numeric_char c Hc) as (Hspace & _ & _ & Hplus & Hminus).
  pose proof (occurs_rstrip_space c _ Hspace
                (occurs_lstrip_space c s Hspace Hs)) as Ht.
  unfold int. destruct (rstrip_space (lstrip_space s)) as [| a t]; [done |].
  assert (Hall : int_digits 0 false (String a t) = None)
    by (by apply (int_digits_non_numeric c)).
  assert (Hsigned : a = "+"%char ∨ a = "-"%char →
                    int_digits 0 false t = None).
  { intros Ha. apply (int_digits_non_numeric c); [done |].
    cbn [occurs] in Ht. apply orb_prop in Ht as [Hac | Hct]; [| done].
    apply Ascii.eqb_eq in Hac. destruct Ha; congruence. }
  destruct a as [[] [] [] [] [] [] [] []]; cbv beta iota;
    first [ by rewrite Hall
          | by rewrite (Hsigned (or_introl eq_refl))
          | by rewrite (Hsigned (or_intror eq_refl)) ].
Qed.

(** [int] reads a sequence of decimal digits as the number it writes,
    leading zeros included. *)
Lemma int_uint d :
  d ≠ Decimal.Nil →
  int (NilEmpty.string_of_uint d) = Ok (Z.of_N (N.of_uint d)).
Proof.
  intros Hnil.
  pose proof (all_digits_text d) as Hdigits.
  destruct (all_digits_unspaced _ Hdigits) as [Hl Hr].
  assert (Hvalue : int_digits 0 false (NilEmpty.string_of_uint d)
                   = Some (Z.of_N (N.of_uint d))).
  { rewrite int_digits_text. unfold N.of_uint. rewrite of_uint_value.
    by destruct d. }
  unfold int. rewrite Hl, Hr.
  destruct (NilEmpty.string_of_uint d) as [| c s]; [by rewrite Hvalue |].
  cbn [all_digits] in Hdigits. apply andb_prop in Hdigits as [Hc _].
  apply bool_decide_eq_true_1 in Hc.
  destruct (digit_char c Hc) as (_ & Hplus & Hminus & _).
  destruct c as [[] [] [] [] [] [] [] []];
    try (by destruct Hplus); try (by destruct Hminus);
    cbv beta iota; by rewrite Hvalue.
Qed.

End DecimalText.

(** ** The resolver *)

Section ResolverProperties.

Import UniversalResolver.
Context (ext : externals).

Implicit Types (rc : Z) (qn : string) (ans : list RR) (w : world).

(** C4. AAAA suppression: for every name, a query of type AAAA returns a
    reply with status NOERROR and no answer record (and does nothing
    else). *)
Theorem aaaa_suppressed rc qn ans w :
  resolve ext (mkDNSRecord rc qn QTYPE_AAAA ans) w
  = (Ok {| rcode := NOERROR; qname := qn; qtype := QTYPE_AAAA; rr := [] |}, w).
Proof. reflexivity. Qed.

(** *** Mail-exchange queries *)

Lemma fold_mx_entries qn entries reply w :
  fold_M (add_mx_entry ext qn) reply entries w
  = (Ok {| rcode := rcode reply; qname := qname reply; qtype := qtype reply;
           rr := rr reply ++ omap (λ e, to_option (mx_answer ext qn e)) entries |},
     w).
Proof.
  revert reply. induction entries as [| entry entries IH]; intros reply.
  - simpl. unfold ret. destruct reply. simpl. by rewrite app_nil_r.
  - simpl. unfold bind at 1. unfold add_mx_entry, try_except, bind, lift, ret.
    destruct (mx_answer ext qn entry) as [r | e]; rewrite IH; simpl.
    + by rewrite <- app_assoc.
    + reflexivity.
Qed.

(** An MX query always returns a reply: one record per available entry
    from which a record can be built, in the order of the entries. *)
Lemma resolve_MX_answers rc qn ans w :
  ∃ w',
    resolve ext (mkDNSRecord rc qn QTYPE_MX ans) w
    = (Ok {| rcode := if truthy (mx_entries ext (rstrip "." qn) w)
                      then rc else NOERROR;
             qname := qn; qtype := QTYPE_MX;
             rr := omap (λ e, to_option (mx_answer ext qn e))
                        (mx_entries ext (rstrip "." qn) w) |},
       w').
Proof.
  unfold resolve, mx_entries. cbn [qname qtype].
  change (QTYPE_MX =? QTYPE_AAAA) with false.
  change (QTYPE_MX =? QTYPE_A) with false.
  change (QTYPE_MX =? QTYPE_MX) with true.
  cbv iota. unfold bind at 1. rewrite get_returns.
  destruct (default [] (cache w !! ("MX:" +:+ rstrip "." qn)))
    as [| c cached].
  - cbv [try_except upstream_resolve_MX bind emit lift ret].
    cbn [negb truthy].
    destruct (upstream_MX ext (rstrip "." qn)) as [[| r answers] | e].
    + eexists. reflexivity.
    + cbn [truthy map].
      pose proof (update_returns ("MX:" +:+ rstrip "." qn)
                    (map (λ r, str r.1 +:+ ":" +:+ r.2) (r :: answers))
                    {| cache := cache w;
                       trace := trace w ++ [Query (rstrip "." qn) "MX"] |})
        as Hret.
      cbn [map] in Hret.
      destruct (PhoneBook.update _ _ _) as [[[] | e] w2]; [| discriminate Hret].
      eexists. apply fold_mx_entries.
    + eexists. reflexivity.
  - cbv [bind ret]. cbn [negb truthy].
    eexists. apply fold_mx_entries.
Qed.

(** C9. Malformed mail entries are tolerated: an MX query always returns
    a reply, in which each available entry contributes at most one record,
    in order, and what an entry contributes depends on that entry alone, so
    that no entry can abort the reply or drop the record of another.  An
    entry without a colon contributes nothing; so does an entry whose
    preference (the text before its first colon) is empty or holds a
    visible ASCII character that is neither a digit, a sign nor an
    underscore; and every entry made of decimal digits (at most 4300)
    that write a number within 0..65535, a colon and an exchange that dnslib
    accepts contributes the record of that preference and that exchange. *)
Theorem malformed_mx_entries_skipped rc qn ans w :
  ∃ reply w' (contribution : string → option RR),
    resolve ext (mkDNSRecord rc qn QTYPE_MX ans) w = (Ok reply, w')
    ∧ rr reply = omap contribution (mx_entries ext (rstrip "." qn) w)
    ∧ (∀ entry, occurs ":" entry = false → contribution entry = None)
    ∧ (∀ rest, contribution (":" +:+ rest) = None)
    ∧ (∀ pref rest c,
         occurs ":" pref = false →
         occurs c pref = true → non_numeric c = true →
         contribution (pref +:+ ":" +:+ rest) = None)
    ∧ (∀ d exchange,
         d ≠ Decimal.Nil →
         (Decimal.nb_digits d <= 4300)%nat →
         (N.of_uint d <= 65535)%N →
         label_accepted ext exchange = true →
         contribution (NilEmpty.string_of_uint d +:+ ":" +:+ exchange)
         = Some (mkRR qn QTYPE_MX
                   (RD_MX exchange (Z.of_N (N.of_uint d))) 60)).
Proof.
  destruct (resolve_MX_answers rc qn ans w) as [w' Hrun].
  eexists. exists w', (λ e, to_option (mx_answer ext qn e)).
  split; [exact Hrun |]. cbn [rr]. split; [reflexivity |].
  split; [| split; [| split]].
  - intros entry Hcolon. unfold mx_answer.
    by rewrite split1_no_sep.
  - intros rest. reflexivity.
  - intros pref rest c Hcolon Hin Hc. unfold mx_answer.
    change (pref +:+ ":" +:+ rest) with (pref +:+ String ":" rest).
    rewrite split1_field by done. by rewrite (int_non_numeric c).
  - intros d exchange Hnil _ Hrange Hlabel. unfold mx_answer, MX.
    change (NilEmpty.string_of_uint d +:+ ":" +:+ exchange)
      with (NilEmpty.string_of_uint d +:+ String ":" exchange).
    rewrite split1_field
      by (apply all_digits_no_colon, all_digits_text).
    rewrite int_uint, Hlabel by done.
    replace ((0 <=? Z.of_N (N.of_uint d)) && (Z.of_N (N.of_uint d) <=? 65535))
      with true; [reflexivity |].
    symmetry. apply andb_true_intro. split; [apply Z.leb_le | apply Z.leb_le]; lia.
Qed.

(** C8. Mail-exchange round trip: once "10:mail.example.com" is stored
    under "MX:example.com", an MX query for example.com is answered with a
    record of preference 10 and exchange host mail.example.com (and with
    that record alone when nothing else was stored under the key). *)
Theorem mx_roundtrip rc ans w :
  label_accepted ext "mail.example.com" = true →
  ∃ reply w',
    resolve ext (mkDNSRecord rc "example.com." QTYPE_MX ans)
      (snd (PhoneBook.update "MX:example.com" ["10:mail.example.com"] w))
    = (Ok reply, w')
    ∧ mkRR "example.com." QTYPE_MX (RD_MX "mail.example.com" 10) 60 ∈ rr reply
    ∧ (value_set "MX:example.com" w = ∅ →
       rr reply
       = [mkRR "example.com." QTYPE_MX (RD_MX "mail.example.com" 10) 60]).
Proof.
  intros Hlabel.
  set (w1 := snd (PhoneBook.update "MX:example.com" ["10:mail.example.com"] w)).
  destruct (resolve_MX_answers rc "example.com." ans w1) as [w' Hrun].
  eexists. exists w'. split; [exact Hrun |]. cbn [rr].
  change (rstrip "." "example.com.") with "example.com".
  assert (Hanswer : to_option (mx_answer ext "example.com." "10:mail.example.com")
          = Some (mkRR "example.com." QTYPE_MX (RD_MX "mail.example.com" 10) 60)).
  { unfold mx_answer, MX. cbn [split1 Ascii.eqb Bool.eqb].
    change (int "10") with (Ok (A:=Z) 10). by rewrite Hlabel. }
  pose proof (update_value_set "MX:example.com" ["10:mail.example.com"] w)
    as Hset. fold w1 in Hset. rewrite (value_set_lookup _ w1) in Hset.
  unfold mx_entries. change ("MX:" +:+ "example.com") with "MX:example.com".
  destruct (default [] (cache w1 !! "MX:example.com")) as [| c cached] eqn:Hc.
  { exfalso. set_solver. }
  rewrite <- Hc in *. clear Hc c cached. split.
  - apply list_elem_of_omap. exists "10:mail.example.com".
    split; [| exact Hanswer].
    apply (elem_of_list_to_set (C:=gset string)). rewrite Hset. set_solver.
  - intros Hempty. rewrite Hempty in Hset.
    assert (Hone : default [] (cache w1 !! "MX:example.com")
                   = ["10:mail.example.com"]).
    { subst w1.
      destruct (update_cases "MX:example.com" ["10:mail.example.com"] w)
        as [[Hsub _] | [_ [line ->]]].
      - rewrite Hempty in Hsub. set_solver.
      - cbn [cache]. rewrite lookup_insert_eq. cbn [default]. rewrite Hempty.
        replace (∅ ∪ list_to_set ["10:mail.example.com"] : gset string)
          with ({["10:mail.example.com"]} : gset string) by set_solver.
        apply elements_singleton. }
    rewrite Hone. cbn [omap list_omap]. by rewrite Hanswer.
Qed.

(** *** Address queries *)

Lemma fold_a_answers qn answers reply w :
  fold_M (add_a_answer qn) reply (str_ipv4 <$> answers) w
  = (Ok {| rcode := rcode reply; qname := qname reply; qtype := qtype reply;
           rr := rr reply ++ (a_record qn <$> answers) |},
     w).
Proof.
  revert reply. induction answers as [| a answers IH]; intros reply.
  - simpl. unfold ret. destruct reply. simpl. by rewrite app_nil_r.
  - cbn [fmap list_fmap fold_M]. unfold bind at 1.
    unfold add_a_answer, bind, lift, ret. rewrite A_str_ipv4.
    change (fold_M (add_a_answer qn) ?r (list_fmap _ _ str_ipv4 answers) w)
      with (fold_M (add_a_answer qn) r (str_ipv4 <$> answers) w).
    rewrite IH. cbn [rcode qname qtype rr add_answer].
    by rewrite <- app_assoc.
Qed.

(** Probing cached addresses none of which is reachable keeps none, and
    attempts connections to these addresses only. *)
Lemma filter_unreachable cached w :
  (∀ ip, ip ∈ cached → ∀ w0, fst (check_ip_health ext ip w0) = Ok false) →
  ∃ probes,
    filter_M (check_ip_health ext) cached w = (Ok [], add_trace w probes)
    ∧ Forall (probes_of cached) probes.
Proof.
  revert w. induction cached as [| ip cached IH]; intros w Hdead.
  - exists []. split; [| constructor].
    simpl. unfold ret. by rewrite add_trace_nil.
  - destruct (check_ip_health_probe ext ip w)
      as (answer & attempted & Hrun & _).
    assert (answer = false) as ->.
    { specialize (Hdead ip (list_elem_of_here _ _) w).
      rewrite Hrun in Hdead. by inversion Hdead. }
    destruct (IH (add_trace w (Connect ip <$> attempted))) as (probes & Hrest & Hprobes).
    { intros ip' Hin. apply Hdead. by apply list_elem_of_further. }
    exists ((Connect ip <$> attempted) ++ probes). split.
    + cbn [filter_M]. unfold bind at 1. rewrite Hrun.
      unfold bind at 1. rewrite Hrest. unfold ret.
      by rewrite add_trace_app.
    + apply Forall_app. split.
      * apply Forall_fmap, Forall_forall. intros port _.
        exists ip, port. split; [done | apply list_elem_of_here].
      * eapply Forall_impl; [exact Hprobes |].
        intros e (ip' & port & -> & Hin). exists ip', port.
        split; [done | by apply list_elem_of_further].
Qed.

(** An address query when no cached address is reachable: the cached
    addresses are probed, the upstream resolver is asked, and its
    addresses, if any, are stored and answered as they are; otherwise the
    reply is a server failure. *)
Lemma resolve_A_unreachable rc qn ans w cached :
  fst (PhoneBook.get (rstrip "." qn) w) = Ok cached →
  (∀ ip, ip ∈ cached → ∀ w0, fst (check_ip_health ext ip w0) = Ok false) →
  ∃ probes,
    Forall (probes_of cached) probes
    ∧ resolve ext (mkDNSRecord rc qn QTYPE_A ans) w
      = match upstream_A ext (rstrip "." qn) with
        | Ok (a :: answers) =>
            (Ok {| rcode := rc; qname := qn; qtype := QTYPE_A;
                   rr := a_record qn <$> (a :: answers) |},
             snd (PhoneBook.update (rstrip "." qn) (str_ipv4 <$> (a :: answers))
                    (add_trace w (probes ++ [Query (rstrip "." qn) "A"]))))
        | _ =>
            (Ok {| rcode := SERVFAIL; qname := qn; qtype := QTYPE_A; rr := [] |},
             add_trace w (probes ++ [Query (rstrip "." qn) "A"]))
        end.
Proof.
  intros Hget Hdead. rewrite get_returns in Hget. cbn [fst] in Hget.
  injection Hget as Hcached.
  destruct (filter_unreachable cached w Hdead) as (probes & Hfilter & Hprobes).
  exists probes. split; [exact Hprobes |].
  unfold resolve. cbn [qname qtype].
  change (QTYPE_A =? QTYPE_AAAA) with false.
  change (QTYPE_A =? QTYPE_A) with true.
  cbv iota. unfold bind at 1. rewrite get_returns, Hcached.
  replace (if truthy cached then filter_M (check_ip_health ext) cached else ret [])
    with (filter_M (check_ip_health ext) cached) by (by destruct cached).
  unfold bind at 1. rewrite Hfilter.
  rewrite <- add_trace_app.
  cbv [try_except upstream_resolve_A bind emit lift ret]. cbn [negb truthy].
  destruct (upstream_A ext (rstrip "." qn)) as [[| a answers] | e];
    [reflexivity | | reflexivity].
  change (map str_ipv4 (a :: answers)) with (str_ipv4 <$> (a :: answers)).
  cbn [truthy fmap list_fmap].
  change (list_fmap _ _ str_ipv4 answers) with (str_ipv4 <$> answers).
  change (str_ipv4 a :: (str_ipv4 <$> answers)) with (str_ipv4 <$> (a :: answers)).
  pose proof (update_returns (rstrip "." qn) (str_ipv4 <$> (a :: answers))
                (add_trace (add_trace w probes) [Query (rstrip "." qn) "A"]))
    as Hret.
  unfold add_trace at 1 in Hret. unfold add_trace at 1.
  destruct (PhoneBook.update _ _ _) as [[[] | e] w2]; [| discriminate Hret].
  cbn [snd truthy]. apply fold_a_answers.
Qed.

(** C5. Total failure is signalled differently: for a name with an empty
    cache entry whose upstream resolution fails (raises or yields nothing),
    an A query returns a reply with status SERVFAIL, while an MX query
    under the same conditions returns a reply with status NOERROR and no
    answer record. *)
Theorem total_failure_asymmetry rc qn ans w :
  fst (PhoneBook.get (rstrip "." qn) w) = Ok [] →
  fst (PhoneBook.get ("MX:" +:+ rstrip "." qn) w) = Ok [] →
  fails (upstream_A ext (rstrip "." qn)) →
  fails (upstream_MX ext (rstrip "." qn)) →
  resolve ext (mkDNSRecord rc qn QTYPE_A ans) w
  = (Ok {| rcode := SERVFAIL; qname := qn; qtype := QTYPE_A; rr := [] |},
     add_trace w [Query (rstrip "." qn) "A"])
  ∧ resolve ext (mkDNSRecord rc qn QTYPE_MX ans) w
    = (Ok {| rcode := NOERROR; qname := qn; qtype := QTYPE_MX; rr := [] |},
       add_trace w [Query (rstrip "." qn) "MX"]).
Proof.
  intros Hget Hget_mx Hfail Hfail_mx. split.
  - destruct (resolve_A_unreachable rc qn ans w [] Hget)
      as (probes & Hprobes & ->).
    { intros ip Hin. by apply elem_of_nil in Hin. }
    assert (probes = []) as ->.
    { destruct Hprobes as [| e probes (ip & port & _ & Hin) _]; [done |].
      by apply elem_of_nil in Hin. }
    unfold fails in Hfail.
    destruct (upstream_A ext (rstrip "." qn)) as [[| a answers] | e];
      [reflexivity | discriminate Hfail | reflexivity].
  - rewrite get_returns in Hget_mx. cbn [fst] in Hget_mx.
    injection Hget_mx as Hcached.
    unfold resolve. cbn [qname qtype].
    change (QTYPE_MX =? QTYPE_AAAA) with false.
    change (QTYPE_MX =? QTYPE_A) with false.
    change (QTYPE_MX =? QTYPE_MX) with true.
    cbv iota. unfold bind at 1. rewrite get_returns, Hcached.
    cbv [try_except upstream_resolve_MX bind emit lift ret].
    cbn [negb truthy]. unfold fails in Hfail_mx.
    destruct (upstream_MX ext (rstrip "." qn)) as [[| r answers] | e];
      [reflexivity | discriminate Hfail_mx | reflexivity].
Qed.

(** C7. Fallback past a dead cache: for an A query where no cached address
    passes the reachability probe and the upstream resolver returns a
    non-empty list of addresses, the reply holds exactly the upstream
    addresses, in order; connections are attempted to cached addresses
    only, all before the upstream is asked and none after; and the store
    afterwards holds, under the name, the union of the cached and the
    upstream addresses. *)
Theorem dead_cache_fallback rc qn ans w cached answers :
  fst (PhoneBook.get (rstrip "." qn) w) = Ok cached →
  (∀ ip, ip ∈ cached → ∀ w0, fst (check_ip_health ext ip w0) = Ok false) →
  upstream_A ext (rstrip "." qn) = Ok answers →
  answers ≠ [] →
  ∃ reply w' probes merge,
    resolve ext (mkDNSRecord rc qn QTYPE_A ans) w = (Ok reply, w')
    ∧ rr reply = a_record qn <$> answers
    ∧ trace w' = trace w ++ probes ++ Query (rstrip "." qn) "A" :: merge
    ∧ Forall (probes_of cached) probes
    ∧ Forall (λ e, ¬ is_connect e) merge
    ∧ value_set (rstrip "." qn) w'
      = list_to_set cached ∪ list_to_set (str_ipv4 <$> answers).
Proof.
  intros Hget Hdead Hup Hne.
  destruct (resolve_A_unreachable rc qn ans w cached Hget Hdead)
    as (probes & Hprobes & Hrun).
  rewrite Hup in Hrun. destruct answers as [| a answers]; [done |].
  set (w1 := add_trace w (probes ++ [Query (rstrip "." qn) "A"])) in *.
  assert (Hcached : value_set (rstrip "." qn) w1 = list_to_set cached).
  { rewrite get_returns in Hget. cbn [fst] in Hget. injection Hget as Hc.
    rewrite value_set_lookup. subst w1. cbn [add_trace cache]. by rewrite Hc. }
  assert (Htrace : ∃ merge,
             trace (snd (PhoneBook.update (rstrip "." qn)
                           (str_ipv4 <$> (a :: answers)) w1))
             = trace w1 ++ merge
             ∧ Forall (λ e, ¬ is_connect e) merge).
  { destruct (update_cases (rstrip "." qn) (str_ipv4 <$> (a :: answers)) w1)
      as [[_ ->] | [_ [line ->]]].
    - exists []. split; [by rewrite app_nil_r | constructor].
    - eexists. split; [reflexivity |].
      repeat constructor; intros (ip & port & Heq); discriminate Heq. }
  destruct Htrace as (merge & Htrace & Hmerge).
  eexists. eexists. exists probes, merge.
  split; [exact Hrun |]. cbn [rr].
  split; [reflexivity |]. split; [| split; [exact Hprobes | split; [exact Hmerge |]]].
  - rewrite Htrace. subst w1. cbn [add_trace trace].
    by rewrite <- !app_assoc.
  - by rewrite update_value_set, Hcached.
Qed.

End ResolverProperties.

(** ** The resolver on examples *)

Section ResolverExamples.

Import UniversalResolver.

Lemma total_failure_asymmetry_witness :
  resolve example_externals (mkDNSRecord 0 "nowhere.example." QTYPE_A [])
    empty_world
  = (Ok {| rcode := SERVFAIL; qname := "nowhere.example."; qtype := QTYPE_A;
           rr := [] |},
     add_trace empty_world [Query "nowhere.example" "A"])
  ∧ resolve example_externals (mkDNSRecord 0 "nowhere.example." QTYPE_MX [])
      empty_world
    = (Ok {| rcode := NOERROR; qname := "nowhere.example."; qtype := QTYPE_MX;
             rr := [] |},
       add_trace empty_world [Query "nowhere.example" "MX"]).
Proof.
  refine (total_failure_asymmetry example_externals 0 "nowhere.example." []
            empty_world _ _ _ _).
  - reflexivity.
  - reflexivity.
  - vm_compute. exact I.
  - vm_compute. exact I.
Defined.

Lemma dead_cache_fallback_witness :
  ∃ reply w' probes merge,
    resolve example_externals (mkDNSRecord 0 "example.com." QTYPE_A [])
      two_addresses
    = (Ok reply, w')
    ∧ rr reply = a_record "example.com." <$> [upstream_address]
    ∧ trace w'
      = trace two_addresses ++ probes ++ Query "example.com" "A" :: merge
    ∧ Forall (probes_of ["192.0.2.7"; "192.0.2.1"]) probes
    ∧ Forall (λ e, ¬ is_connect e) merge
    ∧ value_set "example.com" w'
      = list_to_set ["192.0.2.7"; "192.0.2.1"]
        ∪ list_to_set (str_ipv4 <$> [upstream_address]).
Proof.
  refine (dead_cache_fallback example_externals 0 "example.com." []
            two_addresses ["192.0.2.7"; "192.0.2.1"] [upstream_address]
            _ _ _ _).
  - reflexivity.
  - intros ip Hin w0.
    apply elem_of_cons in Hin as [-> | Hin]; [reflexivity |].
    apply elem_of_cons in Hin as [-> | Hin]; [reflexivity |].
    by apply elem_of_nil in Hin.
  - reflexivity.
  - discriminate.
Defined.

Lemma mx_roundtrip_witness :
  label_accepted example_externals "mail.example.com" = true
  ∧ ∃ reply w',
      resolve example_externals (mkDNSRecord 0 "example.com." QTYPE_MX [])
        (snd (PhoneBook.update "MX:example.com" ["10:mail.example.com"]
                empty_world))
      = (Ok reply, w')
      ∧ mkRR "example.com." QTYPE_MX (RD_MX "mail.example.com" 10) 60
        ∈ rr reply
      ∧ (value_set "MX:example.com" empty_world = ∅ →
         rr reply
         = [mkRR "example.com." QTYPE_MX (RD_MX "mail.example.com" 10) 60]).
Proof.
  split; [reflexivity |].
  exact (mx_roundtrip example_externals 0 [] empty_world eq_refl).
Defined.

(** The same round trip, evaluated. *)
Example mx_roundtrip_run :
  fst (resolve example_externals (mkDNSRecord 0 "example.com." QTYPE_MX [])
         (snd (PhoneBook.update "MX:example.com" ["10:mail.example.com"]
                 empty_world)))
  = Ok {| rcode := 0; qname := "example.com."; qtype := QTYPE_MX;
          rr := [mkRR "example.com." QTYPE_MX
                   (RD_MX "mail.example.com" 10) 60] |}.
Proof. vm_compute. reflexivity. Qed.

(** A mail entry without a colon and one with a preference that is not a
    number, between two that parse: two records. *)
Example malformed_entries_run :
  fst (resolve example_externals (mkDNSRecord 0 "example.com." QTYPE_MX [])
         {| cache := {["MX:example.com" :=
                         ["10:mx1.example.com"; "no colon"; "ten:mx2.example.com";
                          "20:mx3.example.com"]]};
            trace := [] |})
  = Ok {| rcode := 0; qname := "example.com."; qtype := QTYPE_MX;
          rr := [mkRR "example.com." QTYPE_MX (RD_MX "mx1.example.com" 10) 60;
                 mkRR "example.com." QTYPE_MX (RD_MX "mx3.example.com" 20) 60] |}.
Proof. vm_compute. reflexivity. Qed.

(** A preference that is no 16-bit number is dropped like a malformed
    entry, and the entry after it still gives its record. *)
Example out_of_range_entry_run :
  fst (resolve example_externals (mkDNSRecord 0 "example.com." QTYPE_MX [])
         {| cache := {["MX:example.com" :=
                         ["70000:mx1.example.com"; "010:mx2.example.com"]]};
            trace := [] |})
  = Ok {| rcode := 0; qname := "example.com."; qtype := QTYPE_MX;
          rr := [mkRR "example.com." QTYPE_MX (RD_MX "mx2.example.com" 10) 60] |}.
Proof. vm_compute. reflexivity. Qed.

(** A host that answers on port 443 is probed once. *)
Example probe_run :
  check_ip_health example_externals "203.0.113.5" empty_world
  = (Ok true, add_trace empty_world [Connect "203.0.113.5" 443]).
Proof. reflexivity. Qed.

End ResolverExamples.

(** * Further properties *)

(** ** The store: writes, repetition, duplicates *)

Section PhoneBookFurther.

Implicit Types (key : string) (w : world) (V : list string).

(** X1. A merge that brings a value not yet stored under the key rebinds
    the key to a list without duplicates of the old and the new values,
    dumps the whole new dictionary once, and then prints one line naming
    the key and exactly the values that are new, each once. *)
Theorem update_writes_new_values key V w :
  list_to_set V ⊈ value_set key w →
  ∃ stored fresh,
    PhoneBook.update key V w
    = (Ok tt,
       {| cache := <[key := stored]> (cache w);
          trace := trace w ++
                   [Dump (<[key := stored]> (cache w));
                    Print (key +:+ " -> " +:+ join ", " fresh
                           +:+ " - registered")] |})
    ∧ NoDup stored
    ∧ (∀ x, x ∈ stored ↔ x ∈ default [] (cache w !! key) ∨ x ∈ V)
    ∧ NoDup fresh
    ∧ (∀ x, x ∈ fresh ↔ x ∈ V ∧ x ∉ default [] (cache w !! key)).
Proof.
  rewrite value_set_lookup. intros Hnew.
  eexists. eexists. split.
  { unfold PhoneBook.update.
    case_decide as Hfresh; [| reflexivity].
    exfalso. apply Hnew. intros x Hx.
    destruct (decide (x ∈ (list_to_set (default [] (cache w !! key))
                             : gset string))) as [Hin | Hout]; [exact Hin |].
    assert (Hdiff : x ∈ (list_to_set V : gset string)
                        ∖ list_to_set (default [] (cache w !! key)))
      by (apply elem_of_difference; done).
    rewrite Hfresh in Hdiff. by apply elem_of_empty in Hdiff. }
  split; [apply NoDup_elements |]. split; [| split; [apply NoDup_elements |]].
  - intros x. rewrite elem_of_elements. set_solver.
  - intros x. rewrite elem_of_elements. set_solver.
Qed.

Lemma update_writes_new_values_witness :
  list_to_set ["192.0.2.1"; "192.0.2.9"] ⊈ value_set "example.com" two_addresses
  ∧ ∃ stored fresh,
      PhoneBook.update "example.com" ["192.0.2.1"; "192.0.2.9"] two_addresses
      = (Ok tt,
         {| cache := <["example.com" := stored]> (cache two_addresses);
            trace := trace two_addresses ++
                     [Dump (<["example.com" := stored]> (cache two_addresses));
                      Print ("example.com" +:+ " -> " +:+ join ", " fresh
                             +:+ " - registered")] |})
      ∧ NoDup stored
      ∧ (∀ x, x ∈ stored
              ↔ x ∈ default [] (cache two_addresses !! "example.com")
                ∨ x ∈ ["192.0.2.1"; "192.0.2.9"])
      ∧ NoDup fresh
      ∧ (∀ x, x ∈ fresh
              ↔ x ∈ ["192.0.2.1"; "192.0.2.9"]
                ∧ x ∉ default [] (cache two_addresses !! "example.com")).
Proof.
  assert (Hnew : list_to_set ["192.0.2.1"; "192.0.2.9"]
                 ⊈ value_set "example.com" two_addresses).
  { apply (bool_decide_unpack _). vm_compute. exact I. }
  split; [exact Hnew |].
  exact (update_writes_new_values "example.com" ["192.0.2.1"; "192.0.2.9"]
           two_addresses Hnew).
Defined.

(** X2. Repeating a merge does nothing: after update(k, V), a second
    update(k, V) leaves the dictionary as it is, dumps nothing and prints
    nothing. *)
Theorem update_idempotent key V w :
  PhoneBook.update key V (snd (PhoneBook.update key V w))
  = (Ok tt, snd (PhoneBook.update key V w)).
Proof.
  destruct (update_cases key V (snd (PhoneBook.update key V w)))
    as [[_ Hsame] | [Hnew _]]; [exact Hsame |].
  exfalso. apply Hnew. rewrite update_value_set. set_solver.
Qed.

(** X3. No value twice: when no list of the dictionary holds a value
    twice, none does after a merge. *)
Theorem update_keeps_deduplicated key V w :
  deduplicated (cache w) →
  deduplicated (cache (snd (PhoneBook.update key V w))).
Proof.
  intros Hdedup.
  destruct (update_cases key V w) as [[_ ->] | [_ [line ->]]]; [exact Hdedup |].
  cbn [cache]. intros key' l.
  destruct (decide (key = key')) as [<- | Hne].
  - rewrite lookup_insert_eq. intros [= <-]. apply NoDup_elements.
  - rewrite lookup_insert_ne by done. apply Hdedup.
Qed.

Lemma two_addresses_deduplicated : deduplicated (cache two_addresses).
Proof.
  intros key l Hl. unfold two_addresses in Hl. cbn [cache] in Hl.
  apply lookup_singleton_Some in Hl as [_ <-].
  apply (bool_decide_unpack _). vm_compute. exact I.
Qed.

Lemma update_keeps_deduplicated_witness :
  deduplicated (cache two_addresses)
  ∧ deduplicated
      (cache (snd (PhoneBook.update "example.com" ["192.0.2.9"; "192.0.2.9"]
                     two_addresses))).
Proof.
  split; [exact two_addresses_deduplicated |].
  exact (update_keeps_deduplicated "example.com" ["192.0.2.9"; "192.0.2.9"]
           two_addresses two_addresses_deduplicated).
Defined.

(** *** What the file holds *)

Lemma file_after_app succeeds file evs evs' :
  file_after succeeds file (evs ++ evs')
  = file_after succeeds (file_after succeeds file evs) evs'.
Proof.
  revert file. induction evs as [| e evs IH]; intros file; [done |].
  destruct e; cbn [app file_after]; apply IH.
Qed.

Lemma file_after_no_dump succeeds file evs :
  Forall (λ e, is_connect e ∨ is_query e) evs →
  file_after succeeds file evs = file.
Proof.
  induction 1 as [| e evs He _ IH]; [done |].
  by destruct He as [(ip & port & ->) | (domain & rdtype & ->)].
Qed.

End PhoneBookFurther.

(** ** The probe: its answer and its cost *)

Section ProbeFurther.

Import UniversalResolver.
Context (ext : externals).

Lemma existsb_closed (is_open : Z → bool) ports :
  Forall (λ p, is_open p = false) ports → existsb is_open ports = false.
Proof.
  induction 1 as [| p ports Hp _ IH]; [done |]. simpl. by rewrite Hp, IH.
Qed.

Lemma short_circuit_answer is_open ports attempted answer :
  short_circuit is_open ports attempted answer →
  answer = existsb is_open ports
  ∧ attempted `prefix_of` ports
  ∧ (answer = false → attempted = ports)
  ∧ (ports ≠ [] → attempted ≠ []).
Proof.
  intros [[-> (earlier & port & later & -> & -> & Hopen & Hclosed)]
         | [-> [-> Hclosed]]].
  - repeat split.
    + rewrite existsb_app, (existsb_closed _ _ Hclosed). simpl.
      by rewrite Hopen.
    + exists later. by rewrite <- app_assoc.
    + done.
    + intros _. by destruct earlier.
  - repeat split; try done. by rewrite existsb_closed.
Qed.

Lemma check_ip_health_answer ip w :
  ∃ attempted,
    check_ip_health ext ip w
    = (Ok (reachable ext ip), add_trace w (Connect ip <$> attempted)).
Proof.
  destruct (check_ip_health_probe ext ip w) as (answer & attempted & Hrun & Hscan).
  apply short_circuit_answer in Hscan as (-> & _).
  by exists attempted.
Qed.

(** X4. The probe answers true exactly when one of the seventeen ports
    accepts a connection; it attempts a prefix of the port list, at least
    one port and at most seventeen, all seventeen when it answers false;
    and it leaves the store alone. *)
Theorem check_ip_health_reachable ip w :
  ∃ attempted,
    check_ip_health ext ip w
    = (Ok (reachable ext ip), add_trace w (Connect ip <$> attempted))
    ∧ attempted `prefix_of` probe_ports
    ∧ (1 <= length attempted <= 17)%nat
    ∧ (reachable ext ip = false → attempted = probe_ports).
Proof.
  destruct (check_ip_health_probe ext ip w) as (answer & attempted & Hrun & Hscan).
  apply short_circuit_answer in Hscan as (-> & Hprefix & Hall & Hsome).
  exists attempted. split; [exact Hrun |]. split; [exact Hprefix |].
  split; [| exact Hall]. split.
  - destruct attempted; [by destruct Hsome | simpl; lia].
  - apply prefix_length in Hprefix. exact Hprefix.
Qed.

(** Probing a list of addresses keeps the reachable ones, in order, and
    attempts connections to the listed addresses only. *)
Lemma filter_probe cached w :
  ∃ probes,
    filter_M (check_ip_health ext) cached w
    = (Ok (filter (λ ip, reachable ext ip = true) cached), add_trace w probes)
    ∧ Forall (probes_of cached) probes.
Proof.
  revert w. induction cached as [| ip cached IH]; intros w.
  - exists []. split; [| constructor].
    simpl. unfold ret. by rewrite add_trace_nil.
  - destruct (check_ip_health_answer ip w) as (attempted & Hrun).
    destruct (IH (add_trace w (Connect ip <$> attempted)))
      as (probes & Hrest & Hprobes).
    exists ((Connect ip <$> attempted) ++ probes). split.
    + cbn [filter_M]. unfold bind at 1. rewrite Hrun.
      unfold bind at 1. rewrite Hrest. unfold ret.
      rewrite add_trace_app, filter_cons.
      destruct (reachable ext ip); by case_decide.
    + apply Forall_app. split.
      * apply Forall_fmap, Forall_forall. intros port _.
        exists ip, port. split; [done | apply list_elem_of_here].
      * eapply Forall_impl; [exact Hprobes |].
        intros e (ip' & port & -> & Hin). exists ip', port.
        split; [done | by apply list_elem_of_further].
Qed.

End ProbeFurther.

(** ** The resolver: every branch *)

Section ResolverFurther.

Import UniversalResolver.
Context (ext : externals).

Implicit Types (rc : Z) (qn : string) (ans : list RR) (w : world).

(** The loop over the addresses to answer with: one record per address,
    unless [A] rejects one of them, which ends the loop and the query. *)
Lemma fold_a_run qn ips reply w :
  fold_M (add_a_answer qn) reply ips w
  = (match map_result A ips with
     | Ok rds =>
         Ok {| rcode := rcode reply; qname := qname reply;
               qtype := qtype reply;
               rr := rr reply ++ (rd_record qn <$> rds) |}
     | Raise e => Raise e
     end, w).
Proof.
  revert reply. induction ips as [| ip ips IH]; intros reply.
  - simpl. unfold ret. destruct reply. simpl. by rewrite app_nil_r.
  - cbn [fold_M map_result]. unfold bind at 1.
    unfold add_a_answer, bind, lift, ret.
    destruct (A ip) as [rd | e]; [| reflexivity].
    rewrite IH. destruct (map_result A ips) as [rds | e]; [| reflexivity].
    cbn [rcode qname qtype rr add_answer fmap list_fmap].
    by rewrite <- app_assoc.
Qed.

(** An address query, in full: the cached addresses are probed; the
    reachable ones, if any, are the answer; otherwise the upstream is asked
    and its addresses, if any, are stored and answered. *)
Lemma resolve_A_run rc qn ans w :
  ∃ probes,
    Forall (probes_of (default [] (cache w !! rstrip "." qn))) probes
    ∧ resolve ext (mkDNSRecord rc qn QTYPE_A ans) w
      = match filter (λ ip, reachable ext ip = true)
                (default [] (cache w !! rstrip "." qn)) with
        | [] =>
            match upstream_A ext (rstrip "." qn) with
            | Ok (a :: answers) =>
                (Ok {| rcode := rc; qname := qn; qtype := QTYPE_A;
                       rr := a_record qn <$> (a :: answers) |},
                 snd (PhoneBook.update (rstrip "." qn)
                        (str_ipv4 <$> (a :: answers))
                        (add_trace w (probes ++ [Query (rstrip "." qn) "A"]))))
            | _ =>
                (Ok {| rcode := SERVFAIL; qname := qn; qtype := QTYPE_A;
                       rr := [] |},
                 add_trace w (probes ++ [Query (rstrip "." qn) "A"]))
            end
        | valid =>
            (match map_result A valid with
             | Ok rds =>
                 Ok {| rcode := rc; qname := qn; qtype := QTYPE_A;
                       rr := rd_record qn <$> rds |}
             | Raise e => Raise e
             end,
             add_trace w probes)
        end.
Proof.
  destruct (filter_probe ext (default [] (cache w !! rstrip "." qn)) w)
    as (probes & Hfilter & Hprobes).
  exists probes. split; [exact Hprobes |].
  unfold resolve. cbn [qname qtype].
  change (QTYPE_A =? QTYPE_AAAA) with false.
  change (QTYPE_A =? QTYPE_A) with true.
  cbv iota. unfold bind at 1. rewrite get_returns.
  set (cached := default [] (cache w !! rstrip "." qn)) in *.
  replace (if truthy cached then filter_M (check_ip_health ext) cached else ret [])
    with (filter_M (check_ip_health ext) cached) by (by destruct cached).
  unfold bind at 1. rewrite Hfilter.
  destruct (filter (λ ip, reachable ext ip = true) cached) as [| ip valid].
  - rewrite <- add_trace_app.
    cbv [try_except upstream_resolve_A bind emit lift ret]. cbn [negb truthy].
    destruct (upstream_A ext (rstrip "." qn)) as [[| a answers] | e];
      [reflexivity | | reflexivity].
    change (map str_ipv4 (a :: answers)) with (str_ipv4 <$> (a :: answers)).
    cbn [truthy fmap list_fmap].
    change (list_fmap _ _ str_ipv4 answers) with (str_ipv4 <$> answers).
    change (str_ipv4 a :: (str_ipv4 <$> answers))
      with (str_ipv4 <$> (a :: answers)).
    pose proof (update_returns (rstrip "." qn) (str_ipv4 <$> (a :: answers))
                  (add_trace (add_trace w probes) [Query (rstrip "." qn) "A"]))
      as Hret.
    unfold add_trace at 1 in Hret. unfold add_trace at 1.
    destruct (PhoneBook.update _ _ _) as [[[] | e] w2]; [| discriminate Hret].
    cbn [snd truthy]. apply fold_a_answers.
  - cbn [negb truthy]. unfold bind at 1, ret at 1. cbn [truthy].
    rewrite fold_a_run. cbn [reply_to rcode qname qtype rr app].
    reflexivity.
Qed.

(** A mail query, in full: cached entries are used as they are, without
    any effect; with none cached the upstream is asked and its answers, if
    any, are stored as texts; the records are made from the entries. *)
Lemma resolve_MX_run rc qn ans w :
  resolve ext (mkDNSRecord rc qn QTYPE_MX ans) w
  = (Ok {| rcode := if truthy (mx_entries ext (rstrip "." qn) w)
                    then rc else NOERROR;
           qname := qn; qtype := QTYPE_MX;
           rr := omap (λ e, to_option (mx_answer ext qn e))
                      (mx_entries ext (rstrip "." qn) w) |},
     match default [] (cache w !! ("MX:" +:+ rstrip "." qn)) with
     | [] =>
         match upstream_MX ext (rstrip "." qn) with
         | Ok (r :: answers) =>
             snd (PhoneBook.update ("MX:" +:+ rstrip "." qn)
                    (mx_text <$> (r :: answers))
                    (add_trace w [Query (rstrip "." qn) "MX"]))
         | _ => add_trace w [Query (rstrip "." qn) "MX"]
         end
     | _ => w
     end).
Proof.
  unfold resolve, mx_entries. cbn [qname qtype].
  change (QTYPE_MX =? QTYPE_AAAA) with false.
  change (QTYPE_MX =? QTYPE_A) with false.
  change (QTYPE_MX =? QTYPE_MX) with true.
  cbv iota. unfold bind at 1. rewrite get_returns.
  destruct (default [] (cache w !! ("MX:" +:+ rstrip "." qn)))
    as [| c cached].
  - cbv [try_except upstream_resolve_MX bind emit lift ret].
    cbn [negb truthy].
    destruct (upstream_MX ext (rstrip "." qn)) as [[| r answers] | e];
      [reflexivity | | reflexivity].
    cbn [truthy map].
    pose proof (update_returns ("MX:" +:+ rstrip "." qn)
                  (mx_text <$> (r :: answers))
                  (add_trace w [Query (rstrip "." qn) "MX"]))
      as Hret.
    change (mx_text <$> (r :: answers))
      with ((str r.1 +:+ ":" +:+ r.2)
            :: map (λ r, str r.1 +:+ ":" +:+ r.2) answers) in *.
    unfold add_trace in *.
    destruct (PhoneBook.update _ _ _) as [[[] | e] w2]; [| discriminate Hret].
    cbn [snd]. apply fold_mx_entries.
  - cbv [bind ret]. cbn [negb truthy]. apply fold_mx_entries.
Qed.

End ResolverFurther.

(** ** The resolver: its policy per query type *)

Section ResolverPolicy.

Import UniversalResolver.
Context (ext : externals).

Implicit Types (rc : Z) (qn : string) (ans : list RR) (w : world).

Lemma filter_reachable_fmap (addrs : list ipv4) :
  filter (λ ip, reachable ext ip = true) (str_ipv4 <$> addrs)
  = str_ipv4 <$> filter (λ a, reachable ext (str_ipv4 a) = true) addrs.
Proof.
  induction addrs as [| a addrs IH]; [done |].
  cbn [fmap list_fmap]. rewrite !filter_cons.
  change (list_fmap _ _ str_ipv4 addrs) with (str_ipv4 <$> addrs).
  rewrite IH. by case_decide.
Qed.

Lemma map_result_A_str (addrs : list ipv4) :
  map_result A (str_ipv4 <$> addrs) = Ok ((λ a, RD_A (fields a)) <$> addrs).
Proof.
  induction addrs as [| a addrs IH]; [done |].
  cbn [fmap list_fmap map_result]. rewrite A_str_ipv4.
  change (list_fmap _ _ str_ipv4 addrs) with (str_ipv4 <$> addrs).
  by rewrite IH.
Qed.

(** X5. Live cache: when the store holds addresses of the name and some of
    them pass the probe, an A query is answered with exactly those, in
    their stored order; connections to the stored addresses are the only
    effect: the upstream resolver is not asked and the store is not
    written. *)
Theorem live_cache_answers rc qn ans w addrs :
  fst (PhoneBook.get (rstrip "." qn) w) = Ok (str_ipv4 <$> addrs) →
  filter (λ a, reachable ext (str_ipv4 a) = true) addrs ≠ [] →
  ∃ probes,
    resolve ext (mkDNSRecord rc qn QTYPE_A ans) w
    = (Ok {| rcode := rc; qname := qn; qtype := QTYPE_A;
             rr := a_record qn
                   <$> filter (λ a, reachable ext (str_ipv4 a) = true) addrs |},
       add_trace w probes)
    ∧ Forall (probes_of (str_ipv4 <$> addrs)) probes.
Proof.
  intros Hget Hlive. rewrite get_returns in Hget. cbn [fst] in Hget.
  injection Hget as Hcached.
  destruct (resolve_A_run ext rc qn ans w) as (probes & Hprobes & Hrun).
  rewrite Hcached in Hprobes, Hrun. exists probes. split; [| exact Hprobes].
  rewrite Hrun, filter_reachable_fmap.
  destruct (filter (λ a, reachable ext (str_ipv4 a) = true) addrs)
    as [| a live] eqn:Hfilter; [done |].
  change (str_ipv4 <$> a :: live) with (str_ipv4 a :: (str_ipv4 <$> live)).
  cbv iota.
  change (str_ipv4 a :: (str_ipv4 <$> live)) with (str_ipv4 <$> a :: live).
  rewrite map_result_A_str. by rewrite <- list_fmap_compose.
Qed.

(** X6. Other query types pass through: a query that is neither A, AAAA
    nor MX gets a reply with status NOERROR and no answer, and has no
    effect at all. *)
Theorem other_types_pass_through rc qn qt ans w :
  qt ≠ QTYPE_A → qt ≠ QTYPE_AAAA → qt ≠ QTYPE_MX →
  resolve ext (mkDNSRecord rc qn qt ans) w
  = (Ok {| rcode := NOERROR; qname := qn; qtype := qt; rr := [] |}, w).
Proof.
  intros Ha Haaaa Hmx. unfold resolve. cbn [qname qtype].
  apply Z.eqb_neq in Ha, Haaaa, Hmx. by rewrite Ha, Haaaa, Hmx.
Qed.

(** X7. Mail entries are served from the cache first: when entries are
    stored for the name, an MX query is answered from them alone, keeps
    the status of the request, and has no effect: no probe, no upstream
    question, no write. *)
Theorem mx_cache_first rc qn ans w cached :
  fst (PhoneBook.get ("MX:" +:+ rstrip "." qn) w) = Ok cached →
  cached ≠ [] →
  resolve ext (mkDNSRecord rc qn QTYPE_MX ans) w
  = (Ok {| rcode := rc; qname := qn; qtype := QTYPE_MX;
           rr := omap (λ e, to_option (mx_answer ext qn e)) cached |},
     w).
Proof.
  intros Hget Hne. rewrite get_returns in Hget. cbn [fst] in Hget.
  injection Hget as Hcached.
  rewrite resolve_MX_run. unfold mx_entries. rewrite Hcached.
  by destruct cached.
Qed.

Lemma mx_answer_text qn (preference : N) (exchange : string) :
  mx_answer ext qn (mx_text (preference, exchange))
  = if label_accepted ext exchange && (preference <=? 65535)%N
    then Ok (mx_record qn (preference, exchange))
    else Raise ValueError.
Proof.
  unfold mx_answer, mx_text, mx_record, MX. cbn [fst snd].
  change (str preference +:+ ":" +:+ exchange)
    with (str preference +:+ String ":" exchange).
  rewrite split1_field by apply str_no_colon.
  rewrite int_str.
  replace (0 <=? Z.of_N preference) with true
    by (symmetry; apply Z.leb_le; lia).
  replace (Z.of_N preference <=? 65535) with (preference <=? 65535)%N.
  - by destruct (label_accepted ext exchange), (preference <=? 65535)%N.
  - destruct (preference <=? 65535)%N eqn:Hp; symmetry.
    + apply N.leb_le in Hp. apply Z.leb_le. lia.
    + apply N.leb_gt in Hp. apply Z.leb_gt. lia.
Qed.

(** X8. Round trip of a mail entry: the text stored for an upstream answer
    (preference, exchange) is read back as the record of that preference
    and that exchange, whatever the exchange text is (colons included);
    it is dropped exactly when dnslib rejects the exchange as a name or
    the preference as a 16-bit number. *)
Theorem mx_entry_roundtrip qn (preference : N) (exchange : string) :
  mx_answer ext qn (mx_text (preference, exchange))
  = if label_accepted ext exchange && (preference <=? 65535)%N
    then Ok (mx_record qn (preference, exchange))
    else Raise ValueError.
Proof. apply mx_answer_text. Qed.

Lemma omap_mx_text qn (answers : list (N * string)) :
  omap (λ e, to_option (mx_answer ext qn e)) (mx_text <$> answers)
  = mx_record qn
    <$> filter (λ r, label_accepted ext r.2 = true ∧ (r.1 <= 65535)%N) answers.
Proof.
  induction answers as [| [p x] answers IH]; [done |].
  cbn [fmap list_fmap omap list_omap]. rewrite filter_cons.
  change (list_fmap _ _ mx_text answers) with (mx_text <$> answers).
  change (list_omap _ _ ?f (mx_text <$> answers))
    with (omap f (mx_text <$> answers)).
  rewrite IH, mx_answer_text. cbn [fst snd].
  destruct (label_accepted ext x) eqn:Hx;
    destruct (p <=? 65535)%N eqn:Hp; cbn [andb to_option];
    case_decide as Hdec;
    first [ reflexivity
          | exfalso; apply Hdec; split; [done | by apply N.leb_le]
          | exfalso; destruct Hdec as [Hl Hle]; apply N.leb_le in Hle;
            congruence ].
Qed.

(** X9. Mail hosts learned from the upstream: with no entry stored for the
    name and an upstream that returns mail hosts, an MX query asks the
    upstream once, stores one text per host under the key of the name, and
    answers with the record of every host whose exchange and preference
    dnslib accepts, in the order of the upstream, with the status of the
    request. *)
Theorem mx_upstream_learned rc qn ans w answers :
  fst (PhoneBook.get ("MX:" +:+ rstrip "." qn) w) = Ok [] →
  upstream_MX ext (rstrip "." qn) = Ok answers →
  answers ≠ [] →
  ∃ w' merge,
    resolve ext (mkDNSRecord rc qn QTYPE_MX ans) w
    = (Ok {| rcode := rc; qname := qn; qtype := QTYPE_MX;
             rr := mx_record qn
                   <$> filter (λ r, label_accepted ext r.2 = true
                                    ∧ (r.1 <= 65535)%N) answers |},
       w')
    ∧ value_set ("MX:" +:+ rstrip "." qn) w' = list_to_set (mx_text <$> answers)
    ∧ trace w' = trace w ++ Query (rstrip "." qn) "MX" :: merge
    ∧ Forall (λ e, ¬ is_connect e ∧ ¬ is_query e) merge.
Proof.
  intros Hget Hup Hne. rewrite get_returns in Hget. cbn [fst] in Hget.
  injection Hget as Hcached.
  destruct answers as [| r answers]; [done |].
  set (w1 := add_trace w [Query (rstrip "." qn) "MX"]).
  set (key := "MX:" +:+ rstrip "." qn) in *.
  assert (Htrace : ∃ merge,
             trace (snd (PhoneBook.update key (mx_text <$> (r :: answers)) w1))
             = trace w1 ++ merge
             ∧ Forall (λ e, ¬ is_connect e ∧ ¬ is_query e) merge).
  { destruct (update_cases key (mx_text <$> (r :: answers)) w1)
      as [[_ ->] | [_ [line ->]]].
    - exists []. split; [by rewrite app_nil_r | constructor].
    - eexists. split; [reflexivity |].
      repeat constructor; intros (a & b & Heq); discriminate Heq. }
  destruct Htrace as (merge & Htrace & Hmerge).
  exists (snd (PhoneBook.update key (mx_text <$> (r :: answers)) w1)), merge.
  split; [| split; [| split; [| exact Hmerge]]].
  - rewrite resolve_MX_run. unfold mx_entries. fold key.
    rewrite Hcached, Hup. fold w1.
    change (map (λ r0 : N * string, str r0.1 +:+ ":" +:+ r0.2) (r :: answers))
      with (mx_text <$> (r :: answers)).
    rewrite omap_mx_text. reflexivity.
  - rewrite update_value_set, value_set_lookup. subst w1.
    cbn [add_trace cache]. rewrite Hcached. set_solver.
  - rewrite Htrace. subst w1. cbn [add_trace trace].
    by rewrite <- app_assoc.
Qed.

End ResolverPolicy.

(** ** The resolver: what every query keeps *)

Section ResolverInvariants.

Import UniversalResolver.
Context (ext : externals).

Implicit Types (request reply : DNSRecord) (w : world).

Lemma aaaa_suppressed_run rc qn ans w :
  resolve ext (mkDNSRecord rc qn QTYPE_AAAA ans) w
  = (Ok {| rcode := NOERROR; qname := qn; qtype := QTYPE_AAAA; rr := [] |}, w).
Proof. reflexivity. Qed.

(** What a query does to the world: it attempts connections, then asks
    the upstream at most once, about its name, and then merges at most
    once, under the key of its name. *)
Lemma resolve_world_steps request w :
  ∃ probes asked,
    Forall is_connect probes
    ∧ (asked = []
       ∨ ∃ rdtype, asked = [Query (rstrip "." (qname request)) rdtype])
    ∧ (snd (resolve ext request w) = add_trace w (probes ++ asked)
       ∨ ∃ key V,
           store_key request = Some key
           ∧ snd (resolve ext request w)
             = snd (PhoneBook.update key V (add_trace w (probes ++ asked)))).
Proof.
  destruct request as [rc qn qt ans]. cbn [qname].
  destruct (decide (qt = QTYPE_AAAA)) as [-> | Haaaa].
  { exists [], []. split; [constructor |]. split; [by left |]. left.
    rewrite aaaa_suppressed_run. cbn [snd app]. by rewrite add_trace_nil. }
  destruct (decide (qt = QTYPE_A)) as [-> | Ha].
  { destruct (resolve_A_run ext rc qn ans w) as (probes & Hprobes & ->).
    assert (Hconn : Forall is_connect probes).
    { eapply Forall_impl; [exact Hprobes |].
      intros e (ip & port & -> & _). by exists ip, port. }
    destruct (filter _ _) as [| ip valid].
    - exists probes, [Query (rstrip "." qn) "A"].
      split; [exact Hconn |]. split; [right; by eexists |].
      destruct (upstream_A ext (rstrip "." qn)) as [[| a answers] | e];
        [by left | | by left].
      right. by eexists _, _.
    - exists probes, []. split; [exact Hconn |]. split; [by left |].
      left. by rewrite app_nil_r. }
  destruct (decide (qt = QTYPE_MX)) as [-> | Hmx].
  { rewrite resolve_MX_run. cbn [snd].
    destruct (default [] (cache w !! ("MX:" +:+ rstrip "." qn))).
    - exists [], [Query (rstrip "." qn) "MX"].
      split; [constructor |]. split; [right; by eexists |]. cbn [app].
      destruct (upstream_MX ext (rstrip "." qn)) as [[| r answers] | e];
        [by left | | by left].
      right. by eexists _, _.
    - exists [], []. split; [constructor |]. split; [by left |].
      left. cbn [app]. by rewrite add_trace_nil. }
  exists [], []. split; [constructor |]. split; [by left |]. left.
  unfold resolve. cbn [qname qtype].
  apply Z.eqb_neq in Ha, Haaaa, Hmx. rewrite Ha, Haaaa, Hmx.
  cbn [snd ret app]. by rewrite add_trace_nil.
Qed.

Lemma resolve_world request w :
  ∃ evs,
    Forall (λ e, is_connect e ∨ is_query e) evs
    ∧ (snd (resolve ext request w) = add_trace w evs
       ∨ ∃ key V,
           store_key request = Some key
           ∧ snd (resolve ext request w)
             = snd (PhoneBook.update key V (add_trace w evs))).
Proof.
  destruct (resolve_world_steps request w)
    as (probes & asked & Hprobes & Hasked & Hworld).
  exists (probes ++ asked). split; [| exact Hworld].
  apply Forall_app. split.
  - eapply Forall_impl; [exact Hprobes | by left].
  - destruct Hasked as [-> | [rdtype ->]]; [constructor |].
    constructor; [right; by eexists _, _ | constructor].
Qed.

(** X15. The effects of a query, in order: connection attempts; then at
    most one question to the upstream, about the name of the query; then
    either nothing, the dictionary being as before, or one dump of the
    whole new dictionary followed by one printed line. *)
Theorem resolve_effects request w :
  ∃ probes asked merge,
    trace (snd (resolve ext request w)) = trace w ++ probes ++ asked ++ merge
    ∧ Forall is_connect probes
    ∧ (asked = []
       ∨ ∃ rdtype, asked = [Query (rstrip "." (qname request)) rdtype])
    ∧ ((merge = [] ∧ cache (snd (resolve ext request w)) = cache w)
       ∨ ∃ line,
           merge = [Dump (cache (snd (resolve ext request w))); Print line]).
Proof.
  destruct (resolve_world_steps request w)
    as (probes & asked & Hprobes & Hasked & Hworld).
  exists probes, asked.
  destruct Hworld as [-> | (key & V & _ & ->)].
  - exists []. split; [| split; [exact Hprobes | split; [exact Hasked |]]].
    + cbn [add_trace trace]. by rewrite app_nil_r.
    + by left.
  - destruct (update_cases key V (add_trace w (probes ++ asked)))
      as [[_ ->] | [_ [line ->]]].
    + exists []. split; [| split; [exact Hprobes | split; [exact Hasked |]]].
      * cbn [snd add_trace trace]. by rewrite app_nil_r.
      * by left.
    + eexists. split; [| split; [exact Hprobes | split; [exact Hasked |]]].
      * cbn [trace add_trace]. rewrite <- !app_assoc. reflexivity.
      * right. by eexists.
Qed.

(** X10. A query never makes the store forget: whatever the request and
    the answers of the network, every value stored under any key before
    the query is stored under it after. *)
Theorem resolve_never_forgets request w key x :
  x ∈ value_set key w →
  x ∈ value_set key (snd (resolve ext request w)).
Proof.
  intros Hx.
  destruct (resolve_world request w) as (evs & _ & [-> | (k & V & _ & ->)]).
  - exact Hx.
  - apply update_grows. exact Hx.
Qed.

(** X11. A query touches one key at most: the list stored under a key
    other than the name of an A query, or than "MX:" and the name of an MX
    query, is the same after the query. *)
Theorem resolve_frame request w key :
  store_key request ≠ Some key →
  cache (snd (resolve ext request w)) !! key = cache w !! key.
Proof.
  intros Hkey.
  destruct (resolve_world request w) as (evs & _ & [-> | (k & V & Hk & ->)]).
  - reflexivity.
  - rewrite update_other_key; [reflexivity |].
    intros ->. by apply Hkey.
Qed.

(** X12. The file follows the store when its dumps succeed: if the file
    is known to hold the dictionary in memory before a query, and every
    dump attempted during the query is written in full, the file holds the
    dictionary in memory after the query.  (Of a query whose dump fails
    nothing of the kind is stated: the merge stands in memory and the
    failure is swallowed.) *)
Theorem resolve_keeps_file_in_step succeeds file request w new :
  file_after succeeds file (trace w) = Some (cache w) →
  trace (snd (resolve ext request w)) = trace w ++ new →
  (∀ b, Dump b ∈ new → succeeds b = true) →
  file_after succeeds file (trace (snd (resolve ext request w)))
  = Some (cache (snd (resolve ext request w))).
Proof.
  intros Hsync Hnew Hwritten. rewrite Hnew, file_after_app, Hsync.
  destruct (resolve_world request w) as (evs & Hevs & [Hw | (k & V & _ & Hw)]);
    rewrite Hw in Hnew |- *.
  - cbn [add_trace trace cache] in *. apply app_inv_head in Hnew as <-.
    by rewrite file_after_no_dump.
  - destruct (update_cases k V (add_trace w evs)) as [[_ Hu] | [_ [line Hu]]];
      rewrite Hu in Hnew |- *; cbn [snd add_trace trace cache] in *.
    + apply app_inv_head in Hnew as <-. by rewrite file_after_no_dump.
    + rewrite <- app_assoc in Hnew. apply app_inv_head in Hnew as <-.
      rewrite file_after_app, (file_after_no_dump _ _ evs) by exact Hevs.
      cbn [file_after]. rewrite Hwritten; [done |].
      apply elem_of_app. right. apply list_elem_of_here.
Qed.

(** X13. Server failure means an unanswered address query: for a request
    whose own status is not SERVFAIL, the reply has status SERVFAIL exactly
    when the query is an A query and the reply holds no answer. *)
Theorem servfail_only_for_unanswered_A request w reply w' :
  rcode request ≠ SERVFAIL →
  resolve ext request w = (Ok reply, w') →
  rcode reply = SERVFAIL ↔ qtype request = QTYPE_A ∧ rr reply = [].
Proof.
  destruct request as [rc qn qt ans]. cbn [rcode qtype]. intros Hrc.
  destruct (decide (qt = QTYPE_AAAA)) as [-> | Haaaa].
  { rewrite aaaa_suppressed_run. intros [= <- _]. cbn [rcode rr].
    split; [discriminate | intros [? _]; discriminate]. }
  destruct (decide (qt = QTYPE_A)) as [-> | Ha].
  { destruct (resolve_A_run ext rc qn ans w) as (probes & _ & ->).
    destruct (filter _ _) as [| ip valid].
    - destruct (upstream_A ext (rstrip "." qn)) as [[| a answers] | e];
        intros [= <- _]; cbn [rcode rr]; split; try done.
      intros [_ Hnil]. discriminate Hnil.
    - cbn [map_result]. destruct (A ip) as [rd | e]; [| discriminate].
      destruct (map_result A valid) as [rds | e]; [| discriminate].
      intros [= <- _]. cbn [rcode rr]. split; [done |].
      intros [_ Hnil]. discriminate Hnil. }
  destruct (decide (qt = QTYPE_MX)) as [-> | Hmx].
  { rewrite resolve_MX_run. intros [= <- _]. cbn [rcode rr]. split.
    - destruct (truthy _); [done | discriminate].
    - intros [? _]; discriminate. }
  unfold resolve. cbn [qname qtype].
  pose proof Ha as Ha'. pose proof Haaaa as Haaaa'. pose proof Hmx as Hmx'.
  apply Z.eqb_neq in Ha', Haaaa', Hmx'. rewrite Ha', Haaaa', Hmx'.
  intros [= <- _]. cbn [rcode rr].
  split; [discriminate | intros [? _]; done].
Qed.

Lemma mx_answer_shape qn entry r :
  mx_answer ext qn entry = Ok r →
  rname r = qn ∧ rtype r = QTYPE_MX ∧ ttl r = 60.
Proof.
  unfold mx_answer.
  destruct (split1 ":" entry) as [[pref exchange] | e]; [| discriminate].
  destruct (int pref) as [p | e]; [| discriminate].
  destruct (MX ext exchange p) as [rd | e]; [| discriminate].
  by intros [= <-].
Qed.

(** X14. Every answer names the question: in every reply, each answer
    record carries the name and the type of the question and the fixed
    time to live of 60, and the reply repeats the question. *)
Theorem answers_carry_question request w reply w' :
  resolve ext request w = (Ok reply, w') →
  qname reply = qname request ∧ qtype reply = qtype request
  ∧ Forall (λ r, rname r = qname request ∧ rtype r = qtype request
                 ∧ ttl r = 60) (rr reply).
Proof.
  destruct request as [rc qn qt ans]. cbn [qname qtype].
  destruct (decide (qt = QTYPE_AAAA)) as [-> | Haaaa].
  { rewrite aaaa_suppressed_run. intros [= <- _]. cbn. by repeat split. }
  destruct (decide (qt = QTYPE_A)) as [-> | Ha].
  { destruct (resolve_A_run ext rc qn ans w) as (probes & _ & ->).
    assert (Hshape : ∀ rds, Forall (λ r, rname r = qn ∧ rtype r = QTYPE_A
                                         ∧ ttl r = 60) (rd_record qn <$> rds)).
    { intros rds. apply Forall_fmap, Forall_forall. by intros rd _. }
    destruct (filter _ _) as [| ip valid].
    - destruct (upstream_A ext (rstrip "." qn)) as [[| a answers] | e];
        intros [= <- _]; cbn [qname qtype rr]; repeat split; try done.
      change (Forall (λ r, rname r = qn ∧ rtype r = QTYPE_A ∧ ttl r = 60)
                (a_record qn <$> (a :: answers))).
      apply Forall_fmap, Forall_forall. by intros a' _.
    - destruct (map_result A (ip :: valid)) as [rds | e]; [| discriminate].
      intros [= <- _]. cbn [qname qtype rr].
      repeat split; try done; apply Hshape. }
  destruct (decide (qt = QTYPE_MX)) as [-> | Hmx].
  { rewrite resolve_MX_run. intros [= <- _]. cbn [qname qtype rr].
    repeat split; try done. apply Forall_forall. intros r Hr.
    apply list_elem_of_omap in Hr as (entry & _ & Hentry).
    destruct (mx_answer ext qn entry) as [r' | e] eqn:Hanswer;
      [| discriminate Hentry].
    injection Hentry as ->. by apply mx_answer_shape in Hanswer. }
  unfold resolve. cbn [qname qtype].
  apply Z.eqb_neq in Ha, Haaaa, Hmx. rewrite Ha, Haaaa, Hmx.
  intros [= <- _]. cbn. by repeat split.
Qed.

End ResolverInvariants.

(** ** The further properties on examples *)

Section FurtherExamples.

Import UniversalResolver.

Lemma live_cache_answers_witness :
  fst (PhoneBook.get (rstrip "." "example.com.") live_cache)
  = Ok (str_ipv4 <$> [upstream_address; second_address])
  ∧ ∃ probes,
      resolve example_externals (mkDNSRecord 0 "example.com." QTYPE_A [])
        live_cache
      = (Ok {| rcode := 0; qname := "example.com."; qtype := QTYPE_A;
               rr := a_record "example.com."
                     <$> filter (λ a, reachable example_externals (str_ipv4 a)
                                      = true)
                           [upstream_address; second_address] |},
         add_trace live_cache probes)
      ∧ Forall (probes_of (str_ipv4 <$> [upstream_address; second_address]))
          probes.
Proof.
  split; [reflexivity |].
  refine (live_cache_answers example_externals 0 "example.com." [] live_cache
            [upstream_address; second_address] _ _).
  - reflexivity.
  - vm_compute. discriminate.
Defined.

Lemma other_types_pass_through_witness :
  resolve example_externals (mkDNSRecord 0 "example.com." 16 []) two_addresses
  = (Ok {| rcode := NOERROR; qname := "example.com."; qtype := 16; rr := [] |},
     two_addresses).
Proof.
  refine (other_types_pass_through example_externals 0 "example.com." 16 []
            two_addresses _ _ _); discriminate.
Defined.

Lemma mx_cache_first_witness :
  resolve example_externals (mkDNSRecord 0 "example.com." QTYPE_MX [])
    mail_cached
  = (Ok {| rcode := 0; qname := "example.com."; qtype := QTYPE_MX;
           rr := omap (λ e, to_option
                              (mx_answer example_externals "example.com." e))
                      ["10:mail.example.com"] |},
     mail_cached).
Proof.
  refine (mx_cache_first example_externals 0 "example.com." [] mail_cached
            ["10:mail.example.com"] _ _).
  - reflexivity.
  - discriminate.
Defined.

Lemma mx_upstream_learned_witness :
  ∃ w' merge,
    resolve mail_externals (mkDNSRecord 0 "example.com." QTYPE_MX [])
      empty_world
    = (Ok {| rcode := 0; qname := "example.com."; qtype := QTYPE_MX;
             rr := mx_record "example.com."
                   <$> filter (λ r, label_accepted mail_externals r.2 = true
                                    ∧ (r.1 <= 65535)%N)
                         [(10%N, "mx1.example.com."); (20%N, "mx2.example.com.")] |},
       w')
    ∧ value_set ("MX:" +:+ rstrip "." "example.com.") w'
      = list_to_set (mx_text <$> [(10%N, "mx1.example.com.");
                                  (20%N, "mx2.example.com.")])
    ∧ trace w'
      = trace empty_world ++ Query (rstrip "." "example.com.") "MX" :: merge
    ∧ Forall (λ e, ¬ is_connect e ∧ ¬ is_query e) merge.
Proof.
  refine (mx_upstream_learned mail_externals 0 "example.com." [] empty_world
            [(10%N, "mx1.example.com."); (20%N, "mx2.example.com.")] _ _ _).
  - reflexivity.
  - reflexivity.
  - discriminate.
Defined.

Lemma resolve_never_forgets_witness :
  "192.0.2.7" ∈ value_set "example.com" two_addresses
  ∧ "192.0.2.7"
    ∈ value_set "example.com"
        (snd (resolve example_externals
                (mkDNSRecord 0 "example.com." QTYPE_A []) two_addresses)).
Proof.
  assert (Hin : "192.0.2.7" ∈ value_set "example.com" two_addresses).
  { apply (bool_decide_unpack _). vm_compute. exact I. }
  split; [exact Hin |].
  exact (resolve_never_forgets example_externals
           (mkDNSRecord 0 "example.com." QTYPE_A []) two_addresses
           "example.com" "192.0.2.7" Hin).
Defined.

Lemma resolve_frame_witness :
  store_key (mkDNSRecord 0 "nowhere.example." QTYPE_A []) ≠ Some "example.com"
  ∧ cache (snd (resolve example_externals
                  (mkDNSRecord 0 "nowhere.example." QTYPE_A []) two_addresses))
    !! "example.com"
    = cache two_addresses !! "example.com".
Proof.
  assert (Hkey : store_key (mkDNSRecord 0 "nowhere.example." QTYPE_A [])
                 ≠ Some "example.com") by (vm_compute; discriminate).
  split; [exact Hkey |].
  exact (resolve_frame example_externals
           (mkDNSRecord 0 "nowhere.example." QTYPE_A []) two_addresses
           "example.com" Hkey).
Defined.

Lemma resolve_keeps_file_in_step_witness :
  file_after (λ _, true) (Some ∅) (trace empty_world)
  = Some (cache empty_world)
  ∧ file_after (λ _, true) (Some ∅)
      (trace (snd (resolve example_externals
                     (mkDNSRecord 0 "example.com." QTYPE_A []) empty_world)))
    = Some (cache (snd (resolve example_externals
                          (mkDNSRecord 0 "example.com." QTYPE_A [])
                          empty_world))).
Proof.
  split; [reflexivity |].
  refine (resolve_keeps_file_in_step example_externals (λ _, true) (Some ∅)
            (mkDNSRecord 0 "example.com." QTYPE_A []) empty_world
            (trace (snd (resolve example_externals
                           (mkDNSRecord 0 "example.com." QTYPE_A [])
                           empty_world)))
            _ _ _).
  - reflexivity.
  - reflexivity.
  - intros b _. reflexivity.
Defined.

(** The query of that example does write: it learns the upstream address,
    dumps the new dictionary and prints one line. *)
Example file_in_step_run :
  trace (snd (resolve example_externals
                (mkDNSRecord 0 "example.com." QTYPE_A []) empty_world))
  = [Query "example.com" "A";
     Dump {["example.com" := ["203.0.113.5"]]};
     Print "example.com -> 203.0.113.5 - registered"].
Proof. vm_compute. reflexivity. Qed.

Lemma servfail_only_for_unanswered_A_witness :
  resolve example_externals (mkDNSRecord 0 "nowhere.example." QTYPE_A [])
    empty_world
  = (Ok servfail_reply, asked_nowhere)
  ∧ (rcode servfail_reply = SERVFAIL
     ↔ qtype (mkDNSRecord 0 "nowhere.example." QTYPE_A []) = QTYPE_A
       ∧ rr servfail_reply = []).
Proof.
  assert (Hrun : resolve example_externals
                   (mkDNSRecord 0 "nowhere.example." QTYPE_A []) empty_world
                 = (Ok servfail_reply, asked_nowhere)) by reflexivity.
  split; [exact Hrun |].
  refine (servfail_only_for_unanswered_A example_externals
            (mkDNSRecord 0 "nowhere.example." QTYPE_A []) empty_world
            servfail_reply asked_nowhere _ Hrun).
  discriminate.
Defined.

Lemma answers_carry_question_witness :
  resolve example_externals (mkDNSRecord 0 "nowhere.example." QTYPE_A [])
    empty_world
  = (Ok servfail_reply, asked_nowhere)
  ∧ qname servfail_reply = "nowhere.example."
  ∧ qtype servfail_reply = QTYPE_A
  ∧ Forall (λ r, rname r = "nowhere.example." ∧ rtype r = QTYPE_A ∧ ttl r = 60)
      (rr servfail_reply).
Proof.
  assert (Hrun : resolve example_externals
                   (mkDNSRecord 0 "nowhere.example." QTYPE_A []) empty_world
                 = (Ok servfail_reply, asked_nowhere)) by reflexivity.
  split; [exact Hrun |].
  exact (answers_carry_question example_externals
           (mkDNSRecord 0 "nowhere.example." QTYPE_A []) empty_world
           servfail_reply asked_nowhere Hrun).
Defined.

(** The texts stored for upstream mail hosts, read back. *)
Example mx_upstream_run :
  fst (resolve mail_externals (mkDNSRecord 0 "example.com." QTYPE_MX [])
         empty_world)
  = Ok {| rcode := 0; qname := "example.com."; qtype := QTYPE_MX;
          rr := [mkRR "example.com." QTYPE_MX (RD_MX "mx1.example.com." 10) 60;
                 mkRR "example.com." QTYPE_MX (RD_MX "mx2.example.com." 20) 60] |}.
Proof. vm_compute. reflexivity. Qed.

(** The reachable cached address alone is answered. *)
Example live_cache_run :
  fst (resolve example_externals (mkDNSRecord 0 "example.com." QTYPE_A [])
         live_cache)
  = Ok {| rcode := 0; qname := "example.com."; qtype := QTYPE_A;
          rr := [mkRR "example.com." QTYPE_A (RD_A [203; 0; 113; 5]) 60] |}.
Proof. vm_compute. reflexivity. Qed.

End FurtherExamples.
